(** * MRAM SPI driver (mram.h / mram.c): model and verification

    The driver talks to the chip only through two caller-supplied function
    pointers (a pin write and a full-duplex byte exchange) and through
    [usleep].  It is embedded here as a tree of such calls: every call the C
    code makes is a node, and the value the callee returns selects the
    continuation.  Running a tree against arbitrary implementations of the
    callees yields the C function's result together with the trace of the
    calls that were made. *)

From Stdlib Require Import ZArith List Bool Lia.
Import ListNotations.
Local Open Scope Z_scope.

(** ** Constants of mram.h *)

Definition MRAM_GPIO_LOW : Z := 0.
Definition MRAM_GPIO_HIGH : Z := 1.

Definition MRAM_SIZE_BYTES : Z := 512 * 1024.
Definition MRAM_MAX_ADDRESS : Z := MRAM_SIZE_BYTES - 1.
Definition MRAM_ADDRESS_MASK : Z := 0x7FFFF.

Definition MRAM_TRDP_US : Z := 400.
Definition MRAM_TDP_US : Z := 100.

Definition MRAM_STATUS_WEL : Z := Z.shiftl 1 1.
Definition MRAM_STATUS_BP0 : Z := Z.shiftl 1 2.
Definition MRAM_STATUS_BP1 : Z := Z.shiftl 1 3.
Definition MRAM_STATUS_WPEN : Z := Z.shiftl 1 7.

Definition MRAM_CMD_WREN : Z := 0x06.
Definition MRAM_CMD_WRDI : Z := 0x04.
Definition MRAM_CMD_RDSR : Z := 0x05.
Definition MRAM_CMD_WRSR : Z := 0x01.
Definition MRAM_CMD_READ : Z := 0x03.
Definition MRAM_CMD_WRITE : Z := 0x02.
Definition MRAM_CMD_SLEEP : Z := 0xB9.
Definition MRAM_CMD_WAKE : Z := 0xAB.

(** ** Data model *)

(** A function pointer is its address; [NULLFN] is the null pointer. *)
Definition fnptr : Type := Z.
Definition NULLFN : fnptr := 0.

(** [struct mram]. *)
Record mram : Type := mk_mram {
  gpio_write : fnptr;
  spi_transfer : fnptr;
  cs_pin : Z
}.

(** A pointer argument is [None] when it is NULL and [Some x] when it points
    to an object whose current contents are [x].  An array object is the list
    of its bytes, so its length is the size it was allocated with. *)
Definition mram_ptr : Type := option mram.

(** ** Programs: trees of capability calls *)

Inductive prog (A : Type) : Type :=
| Ret (a : A)
    (* the C function returns *)
| Undef
    (* undefined behaviour in the driver's own code: an array access out of
       bounds, an array of size zero, a shift that overflows *)
| Gpio (f : fnptr) (pin value : Z) (k : bool -> prog A)
    (* [f(pin, value)], a call through [mram->gpio_write] *)
| Spi (f : fnptr) (tx : list Z) (rx : option nat) (len : Z)
      (k : bool -> list Z -> prog A)
    (* [f(tx, rx, len)], a call through [mram->spi_transfer]: [tx] is the
       array object passed as outbound buffer, [rx] the size of the inbound
       array ([None] for NULL), [len] the number of bytes asked for.  The
       continuation is given the callee's return value and the contents of
       the inbound array after the call. *)
| Usleep (us : Z) (k : prog A).
    (* [usleep(us)] *)

Arguments Ret {A} a.
Arguments Undef {A}.
Arguments Gpio {A} f pin value k.
Arguments Spi {A} f tx rx len k.
Arguments Usleep {A} us k.

Fixpoint bind {A B : Type} (p : prog A) (g : A -> prog B) : prog B :=
  match p with
  | Ret a => g a
  | Undef => Undef
  | Gpio f pin value k => Gpio f pin value (fun ok => bind (k ok) g)
  | Spi f tx rx len k => Spi f tx rx len (fun ok rxd => bind (k ok rxd) g)
  | Usleep us k => Usleep us (bind k g)
  end.

Notation "x <- p ;; q" := (bind p (fun x => q))
  (at level 61, p at next level, right associativity).
Notation "' pat <- p ;; q" := (bind p (fun x => match x with pat => q end))
  (at level 61, pat pattern, p at next level, right associativity).

Definition call_gpio (f : fnptr) (pin value : Z) : prog bool :=
  Gpio f pin value (fun ok => Ret ok).

Definition call_spi (f : fnptr) (tx : list Z) (rx : option nat) (len : Z)
  : prog (bool * list Z) :=
  Spi f tx rx len (fun ok rxd => Ret (ok, rxd)).

Definition call_usleep (us : Z) : prog unit := Usleep us (Ret tt).

(** Lifting of a partial operation: where it has no value the program is
    undefined. *)
Definition defined {A : Type} (o : option A) : prog A :=
  match o with Some a => Ret a | None => Undef end.

Notation "x <-? o ;; q" :=
  (match o with Some x => q | None => None end)
  (at level 61, o at next level, right associativity).

(** ** Arrays *)

(** [a[i]] as an rvalue. *)
Definition load (a : list Z) (i : Z) : option Z :=
  if (0 <=? i) && (i <? Z.of_nat (length a)) then nth_error a (Z.to_nat i)
  else None.

Fixpoint set_nth (a : list Z) (n : nat) (v : Z) : list Z :=
  match a, n with
  | [], _ => []
  | _ :: t, O => v :: t
  | x :: t, S n' => x :: set_nth t n' v
  end.

(** [a[i] = v]. *)
Definition store (a : list Z) (i : Z) (v : Z) : option (list Z) :=
  if (0 <=? i) && (i <? Z.of_nat (length a)) then Some (set_nth a (Z.to_nat i) v)
  else None.

(** The local inbound array of [n] bytes as the driver reads it after the
    exchange, [rxd] being its contents. *)
Definition received (n : nat) (rxd : list Z) : list Z := firstn n rxd.

(** The contents of an inbound array of [n] bytes, declared without
    initialiser, after the callee stored the bytes [stored] through it: a
    position the callee left untouched holds whatever the array held
    before, an indeterminate byte given by [uninit]. *)
Definition inbound (n : nat) (stored : list Z) (uninit : nat -> Z) : list Z :=
  firstn n stored ++ map uninit (seq (length stored) (n - length stored)).

(** [for (size_t i = 0; i < len; i++) dst[i + doff] = src[i + soff];]
    run for the [n] iterations that remain from index [i]. *)
Fixpoint copy_loop (n : nat) (i : Z) (src : list Z) (soff : Z)
         (dst : list Z) (doff : Z) : option (list Z) :=
  match n with
  | O => Some dst
  | S n' =>
      match load src (i + soff) with
      | None => None
      | Some v =>
          match store dst (i + doff) v with
          | None => None
          | Some dst' => copy_loop n' (i + 1) src soff dst' doff
          end
      end
  end.

Section Driver.

(** Width of [size_t] in bits (32 or 64 on the targets that have
    [usleep]).  [uint32_t + size_t] is computed in [size_t]. *)
Variable SIZE_BITS : Z.

Definition size_wrap (x : Z) : Z := x mod 2 ^ SIZE_BITS.

(** A variable-length array [uint8_t a[n]]: [n] must be positive. *)
Definition vla (n : Z) : option (list Z) :=
  if 0 <? n then Some (repeat 0 (Z.to_nat n)) else None.

(** ** mram.c *)

Definition mram_transfer_byte (mram : mram_ptr) (tx_byte : Z) (rx_byte : bool)
  : prog (bool * option Z) :=
  match mram with
  | None => Ret (false, None)
  | Some m =>
      let tx_buf := [tx_byte] in
      '(ok, rxd) <- call_spi (spi_transfer m) tx_buf
                      (if rx_byte then Some 1%nat else None) 1 ;;
      if negb ok then Ret (false, None)
      else if rx_byte then
        v <- defined (load (received 1 rxd) 0) ;;
        Ret (true, Some v)
      else Ret (true, None)
  end.

Definition mram_write_enable (mram : mram_ptr) : prog bool :=
  match mram with
  | None => Ret false
  | Some m =>
      ok <- call_gpio (gpio_write m) (cs_pin m) MRAM_GPIO_LOW ;;
      if negb ok then Ret false else
      '(ok, _) <- mram_transfer_byte mram MRAM_CMD_WREN false ;;
      if negb ok then Ret false else
      ok <- call_gpio (gpio_write m) (cs_pin m) MRAM_GPIO_HIGH ;;
      if negb ok then Ret false else
      Ret true
  end.

Definition mram_write_disable (mram : mram_ptr) : prog bool :=
  match mram with
  | None => Ret false
  | Some m =>
      ok <- call_gpio (gpio_write m) (cs_pin m) MRAM_GPIO_LOW ;;
      if negb ok then Ret false else
      '(ok, _) <- mram_transfer_byte mram MRAM_CMD_WRDI false ;;
      if negb ok then Ret false else
      ok <- call_gpio (gpio_write m) (cs_pin m) MRAM_GPIO_HIGH ;;
      if negb ok then Ret false else
      Ret true
  end.

(** [mram_init] returns its result together with the contents of [*mram]
    when it returns ([mram] points to a struct with contents [old]). *)
Definition mram_init (mram : mram_ptr) (gpio_write_fn spi_transfer_fn : fnptr)
           (cs : Z) : prog (bool * mram_ptr) :=
  match mram with
  | None => Ret (false, None)
  | Some old =>
      if (gpio_write_fn =? NULLFN) || (spi_transfer_fn =? NULLFN)
      then Ret (false, Some old) else
      let m := mk_mram gpio_write_fn spi_transfer_fn cs in
      ok <- call_gpio (gpio_write m) cs MRAM_GPIO_HIGH ;;
      if negb ok then Ret (false, Some m) else
      r <- mram_write_disable (Some m) ;;
      Ret (r, Some m)
  end.

(** The 4-byte header of an addressed command. *)
Definition header (cmd addr : Z) : list Z :=
  [ cmd;
    Z.land (Z.shiftr addr 16) 0xFF;
    Z.land (Z.shiftr addr 8) 0xFF;
    Z.land addr 0xFF ].

(** [(addr > MRAM_MAX_ADDRESS) || ((addr + len - 1) > MRAM_MAX_ADDRESS)] *)
Definition out_of_range (addr len : Z) : bool :=
  (addr >? MRAM_MAX_ADDRESS)
  || (size_wrap (size_wrap (addr + len) - 1) >? MRAM_MAX_ADDRESS).

(** [mram_read] returns its result and the contents of [buffer]. *)
Definition mram_read (mram : mram_ptr) (addr : Z) (buffer : option (list Z))
           (len : Z) : prog (bool * option (list Z)) :=
  match mram, buffer with
  | Some m, Some buf =>
      if len =? 0 then Ret (false, buffer) else
      if out_of_range addr len then Ret (false, buffer) else
      let addr := Z.land addr MRAM_ADDRESS_MASK in
      let tx_buf := header MRAM_CMD_READ addr in
      rx_buf <- defined (vla (size_wrap (len + 4))) ;;
      ok <- call_gpio (gpio_write m) (cs_pin m) MRAM_GPIO_LOW ;;
      if negb ok then Ret (false, buffer) else
      '(ok, rxd) <- call_spi (spi_transfer m) tx_buf (Some (length rx_buf))
                      (size_wrap (len + 4)) ;;
      if negb ok then
        _ <- call_gpio (gpio_write m) (cs_pin m) MRAM_GPIO_HIGH ;;
        Ret (false, buffer)
      else
        let rx_buf := received (length rx_buf) rxd in
        buf' <- defined (copy_loop (Z.to_nat len) 0 rx_buf 4 buf 0) ;;
        ok <- call_gpio (gpio_write m) (cs_pin m) MRAM_GPIO_HIGH ;;
        if negb ok then Ret (false, Some buf') else
        Ret (true, Some buf')
  | _, _ => Ret (false, buffer)
  end.

(** The outbound buffer of [mram_write] (mram.c, lines 120 to 129): the
    array [uint8_t tx_buf[len + 4]], the four stores of the header, and the
    loop that copies [data] behind it. *)
Definition write_tx_buf (addr : Z) (data : list Z) (len : Z) : option (list Z) :=
  tx_buf <-? vla (size_wrap (len + 4)) ;;
  tx_buf <-? store tx_buf 0 MRAM_CMD_WRITE ;;
  tx_buf <-? store tx_buf 1 (Z.land (Z.shiftr addr 16) 0xFF) ;;
  tx_buf <-? store tx_buf 2 (Z.land (Z.shiftr addr 8) 0xFF) ;;
  tx_buf <-? store tx_buf 3 (Z.land addr 0xFF) ;;
  copy_loop (Z.to_nat len) 0 data 0 tx_buf 4.

Definition mram_write (mram : mram_ptr) (addr : Z) (data : option (list Z))
           (len : Z) : prog bool :=
  match mram, data with
  | Some m, Some dat =>
      if len =? 0 then Ret false else
      if out_of_range addr len then Ret false else
      let addr := Z.land addr MRAM_ADDRESS_MASK in
      ok <- mram_write_enable mram ;;
      if negb ok then Ret false else
      tx_buf <- defined (write_tx_buf addr dat len) ;;
      ok <- call_gpio (gpio_write m) (cs_pin m) MRAM_GPIO_LOW ;;
      if negb ok then Ret false else
      '(ok, _) <- call_spi (spi_transfer m) tx_buf None (size_wrap (len + 4)) ;;
      if negb ok then
        _ <- call_gpio (gpio_write m) (cs_pin m) MRAM_GPIO_HIGH ;;
        Ret false
      else
        ok <- call_gpio (gpio_write m) (cs_pin m) MRAM_GPIO_HIGH ;;
        if negb ok then Ret false else
        ok <- mram_write_disable mram ;;
        if negb ok then Ret false else
        Ret true
  | _, _ => Ret false
  end.

Definition mram_sleep (mram : mram_ptr) : prog bool :=
  match mram with
  | None => Ret false
  | Some m =>
      ok <- call_gpio (gpio_write m) (cs_pin m) MRAM_GPIO_LOW ;;
      if negb ok then Ret false else
      '(ok, _) <- mram_transfer_byte mram MRAM_CMD_SLEEP false ;;
      if negb ok then Ret false else
      ok <- call_gpio (gpio_write m) (cs_pin m) MRAM_GPIO_HIGH ;;
      if negb ok then Ret false else
      _ <- call_usleep MRAM_TDP_US ;;
      Ret true
  end.

Definition mram_wake (mram : mram_ptr) : prog bool :=
  match mram with
  | None => Ret false
  | Some m =>
      ok <- call_gpio (gpio_write m) (cs_pin m) MRAM_GPIO_LOW ;;
      if negb ok then Ret false else
      '(ok, _) <- mram_transfer_byte mram MRAM_CMD_WAKE false ;;
      if negb ok then Ret false else
      ok <- call_gpio (gpio_write m) (cs_pin m) MRAM_GPIO_HIGH ;;
      if negb ok then Ret false else
      _ <- call_usleep MRAM_TRDP_US ;;
      Ret true
  end.

(** [mram_read_status_register] returns its result and the contents of
    [*status]. *)
Definition mram_read_status_register (mram : mram_ptr) (status : option Z)
  : prog (bool * option Z) :=
  match mram, status with
  | Some m, Some _ =>
      ok <- call_gpio (gpio_write m) (cs_pin m) MRAM_GPIO_LOW ;;
      if negb ok then Ret (false, status) else
      '(ok, _) <- mram_transfer_byte mram MRAM_CMD_RDSR false ;;
      if negb ok then Ret (false, status) else
      '(ok, rx_byte) <- mram_transfer_byte mram 0xFF true ;;
      if negb ok then Ret (false, status) else
      let status := rx_byte in
      ok <- call_gpio (gpio_write m) (cs_pin m) MRAM_GPIO_HIGH ;;
      if negb ok then Ret (false, status) else
      Ret (true, status)
  | _, _ => Ret (false, status)
  end.

Definition mram_write_status_register (mram : mram_ptr) (status : Z) : prog bool :=
  match mram with
  | None => Ret false
  | Some m =>
      ok <- mram_write_enable mram ;;
      if negb ok then Ret false else
      ok <- call_gpio (gpio_write m) (cs_pin m) MRAM_GPIO_LOW ;;
      if negb ok then Ret false else
      '(ok, _) <- mram_transfer_byte mram MRAM_CMD_WRSR false ;;
      if negb ok then Ret false else
      '(ok, _) <- mram_transfer_byte mram status false ;;
      if negb ok then Ret false else
      ok <- call_gpio (gpio_write m) (cs_pin m) MRAM_GPIO_HIGH ;;
      if negb ok then Ret false else
      ok <- mram_write_disable mram ;;
      if negb ok then Ret false else
      Ret true
  end.

(** A local [uint8_t status;] before anything is stored in it: its byte is
    indeterminate, written 0 here (it is never read before being stored). *)
Definition uninit_byte : Z := 0.

(** Conversion of an integer to [bool]. *)
Definition to_bool (x : Z) : bool := negb (x =? 0).

(** [x << n] on [int]: defined when [n] is not negative and the result fits. *)
Definition int_shl (x n : Z) : option Z :=
  if (0 <=? n) && (Z.shiftl x n <? 2 ^ 31) then Some (Z.shiftl x n) else None.

Definition status_value (status : option Z) : Z :=
  match status with Some s => s | None => uninit_byte end.

Definition mram_is_write_enabled (mram : mram_ptr) : prog bool :=
  match mram with
  | None => Ret false
  | Some _ =>
      '(ok, status) <- mram_read_status_register mram (Some uninit_byte) ;;
      if negb ok then Ret false else
      Ret (to_bool (Z.land (status_value status) 0x02))
  end.

Definition mram_is_write_protected (mram : mram_ptr) : prog bool :=
  match mram with
  | None => Ret false
  | Some _ =>
      '(ok, status) <- mram_read_status_register mram (Some uninit_byte) ;;
      if negb ok then Ret false else
      Ret (to_bool (Z.land (status_value status) 0x80))
  end.

Definition mram_is_block_protected (mram : mram_ptr) (block_number : Z) : prog bool :=
  match mram with
  | None => Ret false
  | Some _ =>
      '(ok, status) <- mram_read_status_register mram (Some uninit_byte) ;;
      if negb ok then Ret false else
      bit <- defined (int_shl 0x04 block_number) ;;
      Ret (to_bool (Z.land (status_value status) bit))
  end.

End Driver.

(** ** Running a program against implementations of the callees *)

(** One entry of a trace: the call, and what the callee answered; for an
    exchange, [rxd] is the contents of the inbound array after the call
    (what the callee stored, when [rx] is NULL). *)
Inductive event : Type :=
| EGpio (f : fnptr) (pin value : Z) (ok : bool)
| ESpi (f : fnptr) (tx : list Z) (rx : option nat) (len : Z) (ok : bool)
       (rxd : list Z)
| EUsleep (us : Z).

(** Implementations of the two capabilities and of [usleep] over a state
    [W] of the outside world.  An exchange answers with its return value
    and the bytes it stored through [rx]; [h_uninit w i] is the byte that
    position [i] of an uninitialised local array holds in state [w]. *)
Record handlers (W : Type) : Type := mk_handlers {
  h_gpio : fnptr -> Z -> Z -> W -> bool * W;
  h_spi : fnptr -> list Z -> option nat -> Z -> W -> bool * list Z * W;
  h_usleep : Z -> W -> W;
  h_uninit : W -> nat -> Z
}.

Arguments h_gpio {W} h f pin value w.
Arguments h_spi {W} h f tx rx len w.
Arguments h_usleep {W} h us w.
Arguments h_uninit {W} h w i.

(** The result is [None] when the program ran into undefined behaviour. *)
Fixpoint run {W A : Type} (h : handlers W) (p : prog A) (w : W)
  : option A * list event * W :=
  match p with
  | Ret a => (Some a, [], w)
  | Undef => (None, [], w)
  | Gpio f pin value k =>
      let '(ok, w1) := h_gpio h f pin value w in
      let '(r, tr, w2) := run h (k ok) w1 in
      (r, EGpio f pin value ok :: tr, w2)
  | Spi f tx rx len k =>
      let '(ok, stored, w1) := h_spi h f tx rx len w in
      let rxd := match rx with
                 | Some n => inbound n stored (h_uninit h w)
                 | None => stored
                 end in
      let '(r, tr, w2) := run h (k ok rxd) w1 in
      (r, ESpi f tx rx len ok rxd :: tr, w2)
  | Usleep us k =>
      let '(r, tr, w2) := run h k (h_usleep h us w) in
      (r, EUsleep us :: tr, w2)
  end.

Definition result_of {W A : Type} (x : option A * list event * W) : option A :=
  fst (fst x).
Definition trace_of {W A : Type} (x : option A * list event * W) : list event :=
  snd (fst x).
Definition world_of {W A : Type} (x : option A * list event * W) : W := snd x.

(** A program that makes no call at all. *)
Definition silent {A : Type} (p : prog A) : bool :=
  match p with
  | Ret _ | Undef => true
  | _ => false
  end.

Definition event_ok (e : event) : bool :=
  match e with
  | EGpio _ _ _ ok => ok
  | ESpi _ _ _ _ ok _ => ok
  | EUsleep _ => true
  end.

(** The exchanges of a trace: outbound array and requested length. *)
Fixpoint exchanges (tr : list event) : list (list Z * Z) :=
  match tr with
  | [] => []
  | ESpi _ tx _ len _ _ :: t => (tx, len) :: exchanges t
  | _ :: t => exchanges t
  end.

(** The pin writes of a trace: pin and level. *)
Fixpoint pin_writes (tr : list event) : list (Z * Z) :=
  match tr with
  | [] => []
  | EGpio _ pin value _ :: t => (pin, value) :: pin_writes t
  | _ :: t => pin_writes t
  end.

(** Scripted callees: each call consumes one flag of the script and
    succeeds or fails accordingly (succeeds once the script is used up); an
    exchange that stores through [rx] stores the byte [fill] as many times
    as it was asked for; uninitialised bytes are 0xCC. *)
Definition scripted (fill : Z) : handlers (list bool) :=
  {| h_gpio := fun _ _ _ w =>
       match w with [] => (true, []) | b :: w' => (b, w') end;
     h_spi := fun _ _ rx len w =>
       let rxd := match rx with
                  | Some _ => repeat fill (Z.to_nat len)
                  | None => []
                  end in
       match w with [] => (true, rxd, []) | b :: w' => (b, rxd, w') end;
     h_usleep := fun _ w => w;
     h_uninit := fun _ _ => 0xCC |}.

(** A call without the callee's answer. *)
Inductive call : Type :=
| CGpio (f : fnptr) (pin value : Z)
| CSpi (f : fnptr) (tx : list Z) (rx : option nat) (len : Z)
| CUsleep (us : Z).

Definition call_of (e : event) : call :=
  match e with
  | EGpio f pin value _ => CGpio f pin value
  | ESpi f tx rx len _ _ => CSpi f tx rx len
  | EUsleep us => CUsleep us
  end.

Definition calls (tr : list event) : list call := map call_of tr.

Definition all_ok (tr : list event) : bool := forallb event_ok tr.

(** The three calls of a single-byte command transaction. *)
Definition command_calls (m : mram) (cmd : Z) : list call :=
  [ CGpio (gpio_write m) (cs_pin m) MRAM_GPIO_LOW;
    CSpi (spi_transfer m) [cmd] None 1;
    CGpio (gpio_write m) (cs_pin m) MRAM_GPIO_HIGH ].

(** ** A reference device

    The chip on the other side of the bus, as mram.h documents it: a
    memory of [MRAM_SIZE_BYTES] bytes, the write-enable latch, the
    status register, and the command table, decoded one byte at a time
    while chip-select is low.  The power state and the enforcement of the
    block-protect bits are not part of it. *)

Module Chip.

Inductive phase : Type :=
| Opcode                              (* selected, command byte expected *)
| Address (cmd : Z) (got : list Z)    (* address bytes received so far *)
| ReadData (a : Z)                    (* next address to send *)
| WriteData (a : Z)                   (* next address to store to *)
| StatusOut
| StatusIn
| Ignore.

Record state : Type := mk_state {
  selected : bool;
  phase_of : phase;
  wel : bool;
  protect_bits : Z;
  mem : Z -> Z
}.

(** A pin write on the chip-select line. *)
Definition select (value : Z) (c : state) : state :=
  if value =? MRAM_GPIO_LOW
  then mk_state true Opcode (wel c) (protect_bits c) (mem c)
  else mk_state false Ignore (wel c) (protect_bits c) (mem c).

Definition set_phase (p : phase) (c : state) : state :=
  mk_state (selected c) p (wel c) (protect_bits c) (mem c).

Definition set_wel (b : bool) (c : state) : state :=
  mk_state (selected c) Ignore b (protect_bits c) (mem c).

Definition status_byte (c : state) : Z :=
  Z.lor (protect_bits c) (if wel c then MRAM_STATUS_WEL else 0).

Definition next_address (a : Z) : Z := Z.land (a + 1) MRAM_ADDRESS_MASK.

Definition decode (b : Z) (c : state) : state :=
  if b =? MRAM_CMD_WREN then set_wel true c
  else if b =? MRAM_CMD_WRDI then set_wel false c
  else if b =? MRAM_CMD_RDSR then set_phase StatusOut c
  else if b =? MRAM_CMD_WRSR then set_phase StatusIn c
  else if b =? MRAM_CMD_READ then set_phase (Address MRAM_CMD_READ []) c
  else if b =? MRAM_CMD_WRITE then set_phase (Address MRAM_CMD_WRITE []) c
  else set_phase Ignore c.

Definition address_of (bytes : list Z) : Z :=
  match bytes with
  | [b2; b1; b0] => Z.land (b2 * 65536 + b1 * 256 + b0) MRAM_ADDRESS_MASK
  | _ => 0
  end.

(** One byte clocked in, one byte clocked out. *)
Definition clock (c : state) (b : Z) : state * Z :=
  if negb (selected c) then (c, 0) else
  match phase_of c with
  | Opcode => (decode b c, 0)
  | Address cmd got =>
      let got' := got ++ [b] in
      if (length got' <? 3)%nat then (set_phase (Address cmd got') c, 0)
      else if cmd =? MRAM_CMD_READ
           then (set_phase (ReadData (address_of got')) c, 0)
           else (set_phase (WriteData (address_of got')) c, 0)
  | ReadData a => (set_phase (ReadData (next_address a)) c, mem c a)
  | WriteData a =>
      let mem' := if wel c then (fun x => if x =? a then b else mem c x)
                  else mem c in
      (mk_state (selected c) (WriteData (next_address a)) (wel c)
                (protect_bits c) mem', 0)
  | StatusOut => (c, status_byte c)
  | StatusIn =>
      let bits := if wel c
                  then Z.land b (Z.lor MRAM_STATUS_WPEN
                                   (Z.lor MRAM_STATUS_BP1 MRAM_STATUS_BP0))
                  else protect_bits c in
      (mk_state (selected c) Ignore (wel c) bits (mem c), 0)
  | Ignore => (c, 0)
  end.

(** A full-duplex exchange: the outbound bytes in, the inbound bytes out. *)
Fixpoint exchange (c : state) (out : list Z) : state * list Z :=
  match out with
  | [] => (c, [])
  | b :: out' =>
      let '(c1, i) := clock c b in
      let '(c2, inb) := exchange c1 out' in
      (c2, i :: inb)
  end.

End Chip.

(** The bytes an exchange of [len] bytes clocks out of the array [tx]:
    those of the array as far as it reaches; what is sent past its end is
    whatever lies behind it in memory. *)
Definition clocked_out (tx : list Z) (len : Z) (out : list Z) : Prop :=
  length out = Z.to_nat len /\
  firstn (length tx) out = firstn (Z.to_nat len) tx.

(** The capabilities of a handle model the chip faithfully: seen through
    [abs], a successful pin write on the handle's chip-select pin moves the
    chip-select line, and a successful exchange clocks its bytes through
    the chip and stores the chip's answer.  Nothing is asked of a call that
    reports failure. *)
Record faithful {W : Type} (h : handlers W) (m : mram) (abs : W -> Chip.state)
  : Prop := mk_faithful {
  faithful_gpio : forall value w w',
    h_gpio h (gpio_write m) (cs_pin m) value w = (true, w') ->
    abs w' = Chip.select value (abs w);
  faithful_spi : forall tx rx len w rxd w',
    h_spi h (spi_transfer m) tx rx len w = (true, rxd, w') ->
    exists out, clocked_out tx len out /\
      abs w' = fst (Chip.exchange (abs w) out) /\
      (rx <> None -> rxd = snd (Chip.exchange (abs w) out))
}.

(** The chip itself as the outside world, its chip-select wired to pin
    [wired]; bytes read past the end of an outbound array, and
    uninitialised bytes, are [stray]. *)
Definition chip_handlers (wired stray : Z) : handlers Chip.state :=
  {| h_gpio := fun _ pin value c =>
       (true, if pin =? wired then Chip.select value c else c);
     h_spi := fun _ tx rx len c =>
       let out := firstn (Z.to_nat len) (tx ++ repeat stray (Z.to_nat len)) in
       let '(c', inb) := Chip.exchange c out in
       (true, match rx with Some _ => inb | None => [] end, c');
     h_usleep := fun _ c => c;
     h_uninit := fun _ _ => stray |}.

(** A chip after power-up: deselected, latch clear, memory all [v]. *)
Definition chip_reset (v : Z) : Chip.state :=
  Chip.mk_state false Chip.Ignore false 0 (fun _ => v).

(** The calls of a complete [mram_write]: the write-enable transaction, the
    data transaction, the write-disable transaction. *)
Definition write_calls (m : mram) (addr : Z) (data : list Z) (len : Z) : list call :=
  command_calls m MRAM_CMD_WREN ++
  [ CGpio (gpio_write m) (cs_pin m) MRAM_GPIO_LOW;
    CSpi (spi_transfer m)
         ([ MRAM_CMD_WRITE;
            Z.land (Z.shiftr addr 16) 0xFF;
            Z.land (Z.shiftr addr 8) 0xFF;
            Z.land addr 0xFF ] ++ firstn (Z.to_nat len) data)
         None (len + 4);
    CGpio (gpio_write m) (cs_pin m) MRAM_GPIO_HIGH ] ++
  command_calls m MRAM_CMD_WRDI.

(** The calls of a complete [mram_write_status_register]. *)
Definition write_status_calls (m : mram) (status : Z) : list call :=
  command_calls m MRAM_CMD_WREN ++
  [ CGpio (gpio_write m) (cs_pin m) MRAM_GPIO_LOW;
    CSpi (spi_transfer m) [MRAM_CMD_WRSR] None 1;
    CSpi (spi_transfer m) [status] None 1;
    CGpio (gpio_write m) (cs_pin m) MRAM_GPIO_HIGH ] ++
  command_calls m MRAM_CMD_WRDI.

(** The calls of a complete [mram_read]. *)
Definition read_calls (m : mram) (addr len : Z) : list call :=
  [ CGpio (gpio_write m) (cs_pin m) MRAM_GPIO_LOW;
    CSpi (spi_transfer m)
         [ MRAM_CMD_READ;
           Z.land (Z.shiftr addr 16) 0xFF;
           Z.land (Z.shiftr addr 8) 0xFF;
           Z.land addr 0xFF ]
         (Some (Z.to_nat (len + 4))) (len + 4);
    CGpio (gpio_write m) (cs_pin m) MRAM_GPIO_HIGH ].

(** A whole transaction on the chip: chip-select low, the bytes clocked
    through, chip-select high. *)
Definition chip_transaction (out : list Z) (c : Chip.state) : Chip.state :=
  Chip.select MRAM_GPIO_HIGH
    (fst (Chip.exchange (Chip.select MRAM_GPIO_LOW c) out)).

Arguments chip_transaction : simpl never.

(** A call made through the handle's own capabilities: a pin write goes
    through [mram->gpio_write] to [mram->cs_pin], an exchange through
    [mram->spi_transfer]. *)
Definition own_event (m : mram) (e : event) : Prop :=
  match e with
  | EGpio f pin _ _ => f = gpio_write m /\ pin = cs_pin m
  | ESpi f _ _ _ _ _ => f = spi_transfer m
  | EUsleep _ => True
  end.

(** Chip-select framing of a trace, [sel] telling whether chip-select is
    low: an exchange is made only while it is low and [usleep] only while it
    is high; nothing follows a failed pin write, and a failed exchange is
    followed by nothing or by one pin write that drives chip-select high. *)
Fixpoint framed (sel : bool) (tr : list event) : bool :=
  match tr with
  | [] => true
  | EGpio _ _ value ok :: t =>
      if ok then framed (value =? MRAM_GPIO_LOW) t
      else match t with [] => true | _ => false end
  | ESpi _ _ _ _ ok _ :: t =>
      sel && (if ok then framed sel t
              else match t with
                   | [] => true
                   | [EGpio _ _ value _] => negb (value =? MRAM_GPIO_LOW)
                   | _ => false
                   end)
  | EUsleep _ :: t => negb sel && framed sel t
  end.

(** The [usleep] calls of a trace. *)
Fixpoint delays (tr : list event) : list Z :=
  match tr with
  | [] => []
  | EUsleep us :: t => us :: delays t
  | _ :: t => delays t
  end.

(** The position of the first call of a trace that failed. *)
Fixpoint first_failure (tr : list event) : option nat :=
  match tr with
  | [] => None
  | e :: t => if event_ok e then option_map S (first_failure t) else Some O
  end.

(** * Properties *)

(** ** Stepping through a run *)

(** Case analysis on the answer of the next capability call of a run. *)
Ltac call_step :=
  match goal with
  | |- context [h_gpio ?h ?f ?p ?v ?w] =>
      let ok := fresh "ok" in
      let w' := fresh "w" in
      let E := fresh "Hgpio" in
      destruct (h_gpio h f p v w) as [ok w'] eqn:E; destruct ok; cbn
  | |- context [h_spi ?h ?f ?tx (Some 1%nat) ?len ?w] =>
      let ok := fresh "ok" in
      let rxd := fresh "rxd" in
      let w' := fresh "w" in
      let E := fresh "Hspi" in
      let b := fresh "b" in
      let t := fresh "t" in
      destruct (h_spi h f tx (Some 1%nat) len w) as [[ok rxd] w'] eqn:E;
      destruct ok; [destruct rxd as [|b t] |]; cbn
  | |- context [h_spi ?h ?f ?tx ?rx ?len ?w] =>
      let ok := fresh "ok" in
      let rxd := fresh "rxd" in
      let w' := fresh "w" in
      let E := fresh "Hspi" in
      destruct (h_spi h f tx rx len w) as [[ok rxd] w'] eqn:E; destruct ok; cbn
  end.

Ltac run_cases := unfold result_of, trace_of, world_of; cbn; repeat call_step.

(** ** Range arithmetic *)

Lemma pow2_size_bits (B : Z) : 32 <= B -> 2 ^ 32 <= 2 ^ B.
Proof. intros HB. apply Z.pow_le_mono_r; lia. Qed.

Lemma size_wrap_small (B x : Z) :
  32 <= B -> 0 <= x < 2 ^ 32 -> size_wrap B x = x.
Proof.
  intros HB Hx. unfold size_wrap. apply Z.mod_small.
  pose proof (pow2_size_bits B HB). lia.
Qed.

Lemma max_address_value : MRAM_MAX_ADDRESS = 524287.
Proof. reflexivity. Qed.

Lemma in_range_accepted (B addr len : Z) :
  32 <= B -> 0 <= addr -> 1 <= len -> addr + len - 1 <= MRAM_MAX_ADDRESS ->
  out_of_range B addr len = false.
Proof.
  intros HB Ha Hl Hr. rewrite max_address_value in Hr. unfold out_of_range.
  rewrite (size_wrap_small B (addr + len)) by (cbn; lia).
  rewrite size_wrap_small by (cbn; lia).
  rewrite max_address_value, !Z.gtb_ltb. apply orb_false_iff.
  split; apply Z.ltb_ge; lia.
Qed.

(** Without wrap-around in [addr + len], the range check rejects exactly
    what lies outside the address space. *)
Lemma out_of_range_exact (B addr len : Z) :
  32 <= B -> 0 <= addr -> 1 <= len -> addr + len <= 2 ^ B ->
  out_of_range B addr len = true <->
  (addr > MRAM_MAX_ADDRESS \/ addr + len - 1 > MRAM_MAX_ADDRESS).
Proof.
  intros HB Ha Hl Hw. pose proof (pow2_size_bits B HB) as HP.
  change (2 ^ 32) with 4294967296 in HP.
  rewrite max_address_value. unfold out_of_range, size_wrap.
  rewrite max_address_value, orb_true_iff, !Z.gtb_gt.
  destruct (Z.eq_dec (addr + len) (2 ^ B)) as [E | E].
  - rewrite E, Z.mod_same by lia. cbn [Z.sub Z.opp Z.add].
    replace (-1 mod 2 ^ B) with (2 ^ B - 1).
    + lia.
    + apply Z.mod_unique with (q := -1); lia.
  - rewrite (Z.mod_small (addr + len)) by lia.
    rewrite Z.mod_small by lia. lia.
Qed.

Lemma mask_accepted (addr : Z) :
  0 <= addr <= MRAM_MAX_ADDRESS -> Z.land addr MRAM_ADDRESS_MASK = addr.
Proof.
  intros H. rewrite max_address_value in H.
  change MRAM_ADDRESS_MASK with (Z.ones 19).
  rewrite Z.land_ones by lia. apply Z.mod_small.
  change (2 ^ 19) with 524288. lia.
Qed.

Lemma vla_size (n : Z) : 0 < n -> vla n = Some (repeat 0 (Z.to_nat n)).
Proof. intros H. unfold vla. destruct (0 <? n) eqn:E; [reflexivity | lia]. Qed.

(** ** Rejected calls *)

(** An argument that is NULL, a zero length or a start address outside the
    address space makes [mram_read] return false at once, and so does a
    range that ends outside the address space as long as [addr + len] does
    not wrap around in [size_t]. *)
Lemma mram_read_rejects (B : Z) (mram : mram_ptr) (addr : Z)
      (buffer : option (list Z)) (len : Z) :
  32 <= B -> 0 <= addr -> 0 <= len ->
  mram = None \/ buffer = None \/ len = 0 \/ addr > MRAM_MAX_ADDRESS \/
    (addr + len - 1 > MRAM_MAX_ADDRESS /\ addr + len <= 2 ^ B) ->
  mram_read B mram addr buffer len = Ret (false, buffer).
Proof.
  intros HB Ha Hl Hbad. unfold mram_read.
  destruct mram as [m|]; [|reflexivity].
  destruct buffer as [buf|]; [|reflexivity].
  destruct (len =? 0) eqn:El; [reflexivity|].
  apply Z.eqb_neq in El.
  destruct Hbad as [H | [H | [H | [H | [H Hw]]]]];
    try discriminate; try contradiction.
  - unfold out_of_range.
    replace (addr >? MRAM_MAX_ADDRESS) with true by (symmetry; now apply Z.gtb_gt).
    reflexivity.
  - replace (out_of_range B addr len) with true; [reflexivity|].
    symmetry. apply out_of_range_exact; try lia.
Qed.

Lemma mram_write_rejects (B : Z) (mram : mram_ptr) (addr : Z)
      (data : option (list Z)) (len : Z) :
  32 <= B -> 0 <= addr -> 0 <= len ->
  mram = None \/ data = None \/ len = 0 \/ addr > MRAM_MAX_ADDRESS \/
    (addr + len - 1 > MRAM_MAX_ADDRESS /\ addr + len <= 2 ^ B) ->
  mram_write B mram addr data len = Ret false.
Proof.
  intros HB Ha Hl Hbad. unfold mram_write.
  destruct mram as [m|]; [|reflexivity].
  destruct data as [dat|]; [|reflexivity].
  destruct (len =? 0) eqn:El; [reflexivity|].
  apply Z.eqb_neq in El.
  destruct Hbad as [H | [H | [H | [H | [H Hw]]]]];
    try discriminate; try contradiction.
  - unfold out_of_range.
    replace (addr >? MRAM_MAX_ADDRESS) with true by (symmetry; now apply Z.gtb_gt).
    reflexivity.
  - replace (out_of_range B addr len) with true; [reflexivity|].
    symmetry. apply out_of_range_exact; try lia.
Qed.

(** A write of 10 bytes at 524280 would end at 524289: rejected, no call. *)
Example write_past_end_rejected (m : mram) (data : list Z) :
  mram_write 64 (Some m) 524280 (Some data) 10 = Ret false.
Proof. reflexivity. Qed.

(** C2: a range that ends outside the address space must be rejected
    before any capability is called.  With a 64-bit [size_t] the sum
    [addr + len - 1] of the range check wraps around for [addr = 2] and
    [len = SIZE_MAX]: the range ends far outside the address space, yet
    [mram_read] goes on to drive chip-select low and [mram_write] starts its
    write-enable transaction. *)
Theorem range_check_wraps_around (m : mram) (buf : list Z) :
  let len := 2 ^ 64 - 1 in
  (2 + len - 1 >? MRAM_MAX_ADDRESS) = true /\
  out_of_range 64 2 len = false /\
  (exists k, mram_read 64 (Some m) 2 (Some buf) len
             = Gpio (gpio_write m) (cs_pin m) MRAM_GPIO_LOW k) /\
  (exists k, mram_write 64 (Some m) 2 (Some buf) len
             = Gpio (gpio_write m) (cs_pin m) MRAM_GPIO_LOW k).
Proof.
  cbv zeta. split; [reflexivity|]. split; [reflexivity|].
  split; eexists; reflexivity.
Qed.

(** The same with a 32-bit [size_t]. *)
Lemma range_check_wraps_around_32 (m : mram) (buf : list Z) :
  out_of_range 32 2 (2 ^ 32 - 1) = false /\
  silent (mram_read 32 (Some m) 2 (Some buf) (2 ^ 32 - 1)) = false /\
  silent (mram_write 32 (Some m) 2 (Some buf) (2 ^ 32 - 1)) = false.
Proof. repeat split. Qed.

(** ** Chip-select after a failure *)

(** C4: after chip-select has been driven low, a failure must still be
    followed by an attempt to drive it high.  The single-byte commands and
    the status-register operations do not do so: when the byte exchange
    fails they return false at once, and the last pin write of the run is
    the one that selected the chip.  ([mram_read] and the data phase of
    [mram_write] do make the attempt, see
    [mram_read_exchange_failure_deasserts].) *)
Theorem command_failure_leaves_chip_selected (m : mram) :
  let cs := cs_pin m in
  run (scripted 0) (mram_write_enable (Some m)) [true; false]
    = (Some false,
       [ EGpio (gpio_write m) cs MRAM_GPIO_LOW true;
         ESpi (spi_transfer m) [MRAM_CMD_WREN] None 1 false [] ],
       []) /\
  (let x := run (scripted 0) (mram_write_disable (Some m)) [true; false] in
   result_of x = Some false /\ pin_writes (trace_of x) = [(cs, MRAM_GPIO_LOW)]) /\
  (let x := run (scripted 0) (mram_sleep (Some m)) [true; false] in
   result_of x = Some false /\ pin_writes (trace_of x) = [(cs, MRAM_GPIO_LOW)]) /\
  (let x := run (scripted 0) (mram_wake (Some m)) [true; false] in
   result_of x = Some false /\ pin_writes (trace_of x) = [(cs, MRAM_GPIO_LOW)]) /\
  (let x := run (scripted 0) (mram_read_status_register (Some m) (Some 0))
                [true; true; false] in
   result_of x = Some (false, Some 0) /\
   pin_writes (trace_of x) = [(cs, MRAM_GPIO_LOW)]) /\
  (let x := run (scripted 0) (mram_write_status_register (Some m) 0)
                [true; true; true; true; false] in
   result_of x = Some false /\
   pin_writes (trace_of x)
     = [(cs, MRAM_GPIO_LOW); (cs, MRAM_GPIO_HIGH); (cs, MRAM_GPIO_LOW)]).
Proof. cbv zeta. repeat split. Qed.

(** ** Power transitions *)

(** C9: [mram_sleep] and [mram_wake] return true only at the end of a run
    that selected the chip, sent the one command byte, deselected the chip
    and then called [usleep] with the settling time, as its last call; the
    two settling times are at least 100 and 400 microseconds.  And they do
    get there: a run in which no call fails makes these four calls and
    returns true, and a run stops right after its first failed call. *)
Theorem sleep_wake_settle {W : Type} (h : handlers W) (m : mram) (w : W) :
  (result_of (run h (mram_sleep (Some m)) w) = Some true <->
   exists rxd,
     trace_of (run h (mram_sleep (Some m)) w) =
       [ EGpio (gpio_write m) (cs_pin m) MRAM_GPIO_LOW true;
         ESpi (spi_transfer m) [MRAM_CMD_SLEEP] None 1 true rxd;
         EGpio (gpio_write m) (cs_pin m) MRAM_GPIO_HIGH true;
         EUsleep MRAM_TDP_US ]) /\
  (result_of (run h (mram_wake (Some m)) w) = Some true <->
   exists rxd,
     trace_of (run h (mram_wake (Some m)) w) =
       [ EGpio (gpio_write m) (cs_pin m) MRAM_GPIO_LOW true;
         ESpi (spi_transfer m) [MRAM_CMD_WAKE] None 1 true rxd;
         EGpio (gpio_write m) (cs_pin m) MRAM_GPIO_HIGH true;
         EUsleep MRAM_TRDP_US ]) /\
  100 <= MRAM_TDP_US /\ 400 <= MRAM_TRDP_US /\
  (all_ok (trace_of (run h (mram_sleep (Some m)) w)) = true ->
   result_of (run h (mram_sleep (Some m)) w) = Some true) /\
  (all_ok (trace_of (run h (mram_wake (Some m)) w)) = true ->
   result_of (run h (mram_wake (Some m)) w) = Some true) /\
  length (trace_of (run h (mram_sleep (Some m)) w))
  = match first_failure (trace_of (run h (mram_sleep (Some m)) w)) with
    | None => 4%nat
    | Some j => S j
    end /\
  length (trace_of (run h (mram_wake (Some m)) w))
  = match first_failure (trace_of (run h (mram_wake (Some m)) w)) with
    | None => 4%nat
    | Some j => S j
    end.
Proof.
  split; [|split; [|split; [reflexivity | split; [reflexivity|]]]].
  - run_cases; (split; [intros H; try discriminate H; eexists; reflexivity
                       | intros [r H]; try discriminate H; try reflexivity]).
  - run_cases; (split; [intros H; try discriminate H; eexists; reflexivity
                       | intros [r H]; try discriminate H; try reflexivity]).
  - repeat split.
    + run_cases; intros H; try discriminate H; reflexivity.
    + run_cases; intros H; try discriminate H; reflexivity.
    + run_cases; reflexivity.
    + run_cases; reflexivity.
Qed.

Lemma sleep_wake_settle_witness :
  let s := run (scripted 0) (mram_sleep (Some (mk_mram 1 2 5))) [] in
  let k := run (scripted 0) (mram_wake (Some (mk_mram 1 2 5))) [] in
  (all_ok (trace_of s) = true /\ result_of s = Some true /\
   exists rxd,
     trace_of s =
       [ EGpio 1 5 MRAM_GPIO_LOW true;
         ESpi 2 [MRAM_CMD_SLEEP] None 1 true rxd;
         EGpio 1 5 MRAM_GPIO_HIGH true;
         EUsleep MRAM_TDP_US ]) /\
  (all_ok (trace_of k) = true /\ result_of k = Some true /\
   exists rxd,
     trace_of k =
       [ EGpio 1 5 MRAM_GPIO_LOW true;
         ESpi 2 [MRAM_CMD_WAKE] None 1 true rxd;
         EGpio 1 5 MRAM_GPIO_HIGH true;
         EUsleep MRAM_TRDP_US ]).
Proof.
  cbv zeta.
  pose proof (sleep_wake_settle (scripted 0) (mk_mram 1 2 5) []) as H.
  destruct H as (Hs & Hk & _ & _ & Ps & Pk & _).
  split.
  - split; [reflexivity|].
    assert (result_of (run (scripted 0) (mram_sleep (Some (mk_mram 1 2 5))) [])
            = Some true) as R by (apply Ps; reflexivity).
    split; [exact R | apply (proj1 Hs R)].
  - split; [reflexivity|].
    assert (result_of (run (scripted 0) (mram_wake (Some (mk_mram 1 2 5))) [])
            = Some true) as R by (apply Pk; reflexivity).
    split; [exact R | apply (proj1 Hk R)].
Defined.

(** ** Status bits *)

Lemma land_pow2 (s n : Z) :
  0 <= n -> Z.land s (2 ^ n) = if Z.testbit s n then 2 ^ n else 0.
Proof.
  intros Hn. apply Z.bits_inj'. intros k Hk.
  rewrite Z.land_spec, Z.pow2_bits_eqb by lia.
  destruct (Z.eqb_spec n k) as [-> | Hne].
  - destruct (Z.testbit s k) eqn:E.
    + now rewrite Z.pow2_bits_true by lia.
    + now rewrite Z.bits_0.
  - rewrite andb_false_r. destruct (Z.testbit s n).
    + rewrite Z.pow2_bits_false by lia. reflexivity.
    + now rewrite Z.bits_0.
Qed.

Lemma to_bool_land_pow2 (s n : Z) :
  0 <= n -> to_bool (Z.land s (2 ^ n)) = Z.testbit s n.
Proof.
  intros Hn. rewrite land_pow2 by assumption. unfold to_bool.
  destruct (Z.testbit s n); [|reflexivity].
  apply negb_true_iff, Z.eqb_neq.
  pose proof (Z.pow_pos_nonneg 2 n). lia.
Qed.


(** ** Arrays *)

Lemma load_of_nat (a : list Z) (n : nat) : load a (Z.of_nat n) = nth_error a n.
Proof.
  unfold load. rewrite Nat2Z.id.
  destruct (Z.ltb_spec (Z.of_nat n) (Z.of_nat (length a))) as [H | H].
  - replace (0 <=? Z.of_nat n) with true by (symmetry; apply Z.leb_le; lia).
    reflexivity.
  - rewrite andb_false_r. symmetry. apply nth_error_None. lia.
Qed.

Lemma load_negative (a : list Z) (i : Z) : i < 0 -> load a i = None.
Proof.
  intros H. unfold load.
  replace (0 <=? i) with false by (symmetry; apply Z.leb_gt; lia).
  reflexivity.
Qed.

Lemma load_ext (a b : list Z) : (forall i, load a i = load b i) -> a = b.
Proof.
  intros H. apply nth_error_ext. intros n. rewrite <- !load_of_nat. apply H.
Qed.

Lemma load_some_bounds (a : list Z) (i v : Z) :
  load a i = Some v -> 0 <= i < Z.of_nat (length a).
Proof.
  unfold load. destruct (Z.leb_spec 0 i); destruct (Z.ltb_spec i (Z.of_nat (length a)));
    cbn; intros; try discriminate; lia.
Qed.

Lemma load_nth (a : list Z) (i d : Z) :
  0 <= i < Z.of_nat (length a) -> load a i = Some (nth (Z.to_nat i) a d).
Proof.
  intros H. replace i with (Z.of_nat (Z.to_nat i)) at 1 by lia.
  rewrite load_of_nat. apply nth_error_nth'. lia.
Qed.

Lemma load_app (a b : list Z) (i : Z) :
  load (a ++ b) i =
  if i <? Z.of_nat (length a) then load a i else load b (i - Z.of_nat (length a)).
Proof.
  destruct (Z.ltb_spec i 0) as [Hn | Hn].
  - rewrite !load_negative by lia.
    destruct (i <? Z.of_nat (length a)); reflexivity.
  - replace i with (Z.of_nat (Z.to_nat i)) by lia.
    destruct (Z.ltb_spec (Z.of_nat (Z.to_nat i)) (Z.of_nat (length a))) as [H | H].
    + rewrite !load_of_nat. apply nth_error_app1. lia.
    + replace (Z.of_nat (Z.to_nat i) - Z.of_nat (length a))
        with (Z.of_nat (Z.to_nat i - length a)) by lia.
      rewrite !load_of_nat. apply nth_error_app2. lia.
Qed.

Lemma load_firstn (n : nat) (a : list Z) (i : Z) :
  load (firstn n a) i = if i <? Z.of_nat n then load a i else None.
Proof.
  destruct (Z.ltb_spec i 0) as [Hn | Hn].
  - rewrite !load_negative by lia. now destruct (i <? Z.of_nat n).
  - replace i with (Z.of_nat (Z.to_nat i)) by lia. rewrite !load_of_nat.
    destruct (Z.ltb_spec (Z.of_nat (Z.to_nat i)) (Z.of_nat n)) as [H | H].
    + rewrite nth_error_firstn.
      destruct (Nat.ltb_spec (Z.to_nat i) n); [reflexivity | lia].
    + apply nth_error_None. rewrite length_firstn. lia.
Qed.

Lemma length_set_nth (a : list Z) (n : nat) (v : Z) :
  length (set_nth a n v) = length a.
Proof.
  revert n. induction a as [|x a IH]; intros [|n]; cbn; auto.
Qed.

Lemma nth_error_set_nth (a : list Z) (n j : nat) (v : Z) :
  (n < length a)%nat ->
  nth_error (set_nth a n v) j = if (j =? n)%nat then Some v else nth_error a j.
Proof.
  revert n j. induction a as [|x a IH]; intros n j Hn; cbn in Hn; [lia|].
  destruct n as [|n], j as [|j]; cbn; try reflexivity.
  apply IH. lia.
Qed.

Lemma store_some (a : list Z) (i v : Z) (a' : list Z) :
  store a i v = Some a' ->
  0 <= i < Z.of_nat (length a) /\ length a' = length a /\
  forall j, load a' j = if j =? i then Some v else load a j.
Proof.
  unfold store.
  destruct (Z.leb_spec 0 i); destruct (Z.ltb_spec i (Z.of_nat (length a)));
    cbn; intros E; try discriminate.
  injection E as <-. split; [lia|]. split; [apply length_set_nth|].
  intros j. destruct (Z.ltb_spec j 0) as [Hn | Hn].
  - rewrite !load_negative by lia.
    destruct (Z.eqb_spec j i); [lia | reflexivity].
  - replace j with (Z.of_nat (Z.to_nat j)) at 1 3 by lia. rewrite !load_of_nat.
    rewrite nth_error_set_nth by lia.
    destruct (Nat.eqb_spec (Z.to_nat j) (Z.to_nat i));
      destruct (Z.eqb_spec j i); try lia; reflexivity.
Qed.

Lemma store_in_bounds (a : list Z) (i v : Z) :
  0 <= i < Z.of_nat (length a) -> store a i v = Some (set_nth a (Z.to_nat i) v).
Proof.
  intros H. unfold store.
  replace (0 <=? i) with true by (symmetry; apply Z.leb_le; lia).
  replace (i <? Z.of_nat (length a)) with true by (symmetry; apply Z.ltb_lt; lia).
  reflexivity.
Qed.

(** What the copy loop leaves behind when every access was in bounds. *)
Lemma copy_loop_some (n : nat) :
  forall (i : Z) (src : list Z) (soff : Z) (dst : list Z) (doff : Z) (dst' : list Z),
  0 <= i -> 0 <= soff -> 0 <= doff ->
  copy_loop n i src soff dst doff = Some dst' ->
  length dst' = length dst /\
  ((0 < n)%nat -> i + Z.of_nat n + soff <= Z.of_nat (length src) /\
                  i + Z.of_nat n + doff <= Z.of_nat (length dst)) /\
  forall j, load dst' j =
            if (i + doff <=? j) && (j <? i + doff + Z.of_nat n)
            then load src (j - doff + soff) else load dst j.
Proof.
  induction n as [|n IH]; intros i src soff dst doff dst' Hi Hs Hd; cbn [copy_loop].
  - intros E. injection E as <-. split; [reflexivity|]. split; [lia|].
    intros j. replace (j <? i + doff + Z.of_nat 0) with (j <? i + doff)
      by (f_equal; lia).
    destruct (Z.leb_spec (i + doff) j); destruct (Z.ltb_spec j (i + doff));
      try lia; reflexivity.
  - destruct (load src (i + soff)) as [v|] eqn:El; [|discriminate].
    destruct (store dst (i + doff) v) as [d1|] eqn:Es; [|discriminate].
    intros E. apply IH in E; try lia.
    destruct E as (Hlen & Hb & Hload).
    apply store_some in Es. destruct Es as (Hsb & Hsl & Hsload).
    pose proof (load_some_bounds _ _ _ El) as Hlb.
    split; [congruence|]. split.
    + intros _. destruct n as [|n'].
      * lia.
      * destruct Hb as [Hb1 Hb2]; [lia|]. rewrite Hsl in Hb2. lia.
    + intros j. rewrite Hload, Hsload.
      destruct (Z.leb_spec (i + 1 + doff) j);
        destruct (Z.ltb_spec j (i + 1 + doff + Z.of_nat n));
        destruct (Z.leb_spec (i + doff) j);
        destruct (Z.ltb_spec j (i + doff + Z.of_nat (S n)));
        destruct (Z.eqb_spec j (i + doff)); cbn; try lia; try reflexivity.
      subst j. replace (i + doff - doff + soff) with (i + soff) by lia.
      now rewrite El.
Qed.

Lemma load_beyond (a : list Z) (i : Z) :
  Z.of_nat (length a) <= i -> load a i = None.
Proof.
  intros H. unfold load.
  replace (i <? Z.of_nat (length a)) with false by (symmetry; apply Z.ltb_ge; lia).
  now rewrite andb_false_r.
Qed.

(** The outbound buffer of an accepted write is the header followed by the
    first [len] bytes of [data]. *)
Lemma write_tx_buf_some (B addr : Z) (dat : list Z) (len : Z) (tx : list Z) :
  32 <= B -> 1 <= len <= MRAM_SIZE_BYTES ->
  write_tx_buf B addr dat len = Some tx ->
  tx = header MRAM_CMD_WRITE addr ++ firstn (Z.to_nat len) dat /\
  len <= Z.of_nat (length dat).
Proof.
  intros HB Hl. change MRAM_SIZE_BYTES with 524288 in Hl. unfold write_tx_buf.
  rewrite size_wrap_small by (cbn; lia). rewrite vla_size by lia.
  replace (Z.to_nat (len + 4)) with (S (S (S (S (Z.to_nat len))))) by lia.
  cbn [repeat].
  rewrite store_in_bounds by (cbn [length]; lia).
  rewrite store_in_bounds by (rewrite length_set_nth; cbn [length]; lia).
  rewrite store_in_bounds by (rewrite !length_set_nth; cbn [length]; lia).
  rewrite store_in_bounds by (rewrite !length_set_nth; cbn [length]; lia).
  change (Z.to_nat 0) with 0%nat. change (Z.to_nat 1) with 1%nat.
  change (Z.to_nat 2) with 2%nat. change (Z.to_nat 3) with 3%nat.
  cbn [set_nth].
  change (MRAM_CMD_WRITE :: Z.land (Z.shiftr addr 16) 255
            :: Z.land (Z.shiftr addr 8) 255 :: Z.land addr 255
            :: repeat 0 (Z.to_nat len))
    with (header MRAM_CMD_WRITE addr ++ repeat 0 (Z.to_nat len)).
  intros E. apply copy_loop_some in E; try lia.
  destruct E as (Hlen & Hb & Hload).
  destruct Hb as [Hb _]; [lia|].
  split; [|lia].
  apply load_ext. intros j. rewrite Hload, !load_app, load_firstn.
  change (Z.of_nat (length (header MRAM_CMD_WRITE addr))) with 4.
  destruct (Z.leb_spec (0 + 4) j); destruct (Z.ltb_spec j (0 + 4 + Z.of_nat (Z.to_nat len)));
    destruct (Z.ltb_spec j 4); destruct (Z.ltb_spec (j - 4) (Z.of_nat (Z.to_nat len)));
    cbn [andb]; try lia; try reflexivity.
  - f_equal. lia.
  - apply load_beyond. rewrite repeat_length. lia.
Qed.

Lemma load_in_bounds (a : list Z) (i : Z) :
  0 <= i < Z.of_nat (length a) -> exists v, load a i = Some v.
Proof.
  intros H. exists (nth (Z.to_nat i) a 0). now apply load_nth.
Qed.

(** The copy loop has a result whenever all its accesses are in bounds. *)
Lemma copy_loop_total (n : nat) :
  forall (i : Z) (src : list Z) (soff : Z) (dst : list Z) (doff : Z),
  0 <= i -> 0 <= soff -> 0 <= doff ->
  i + Z.of_nat n + soff <= Z.of_nat (length src) ->
  i + Z.of_nat n + doff <= Z.of_nat (length dst) ->
  exists dst', copy_loop n i src soff dst doff = Some dst'.
Proof.
  induction n as [|n IH]; intros i src soff dst doff Hi Hs Hd Hsrc Hdst;
    cbn [copy_loop].
  - eauto.
  - destruct (load_in_bounds src (i + soff)) as [v ->]; [lia|].
    rewrite store_in_bounds by lia.
    apply IH; try lia. rewrite length_set_nth. lia.
Qed.

Lemma write_tx_buf_total (B addr : Z) (dat : list Z) (len : Z) :
  32 <= B -> 1 <= len <= MRAM_SIZE_BYTES -> len <= Z.of_nat (length dat) ->
  write_tx_buf B addr dat len
  = Some (header MRAM_CMD_WRITE addr ++ firstn (Z.to_nat len) dat).
Proof.
  intros HB Hl Hd.
  destruct (write_tx_buf B addr dat len) as [tx|] eqn:E.
  - apply write_tx_buf_some in E; try assumption. now destruct E as [-> _].
  - exfalso. revert E. change MRAM_SIZE_BYTES with 524288 in Hl.
    unfold write_tx_buf.
    rewrite size_wrap_small by (cbn; lia). rewrite vla_size by lia.
    replace (Z.to_nat (len + 4)) with (S (S (S (S (Z.to_nat len))))) by lia.
    cbn [repeat].
    rewrite store_in_bounds by (cbn [length]; lia).
    rewrite store_in_bounds by (rewrite length_set_nth; cbn [length]; lia).
    rewrite store_in_bounds by (rewrite !length_set_nth; cbn [length]; lia).
    rewrite store_in_bounds by (rewrite !length_set_nth; cbn [length]; lia).
    match goal with
    | |- copy_loop ?n ?i ?src ?soff ?dst ?doff = None -> _ =>
        destruct (copy_loop_total n i src soff dst doff) as [d' ->];
          [lia | lia | lia | lia | | discriminate]
    end.
    rewrite !length_set_nth. cbn [length]. rewrite repeat_length. lia.
Qed.

(** ** Write sequencing *)

(** Picks the length of the initial segment a trace consists of. *)
Ltac pick_prefix :=
  first [ exists 0%nat; reflexivity | exists 1%nat; reflexivity
        | exists 2%nat; reflexivity | exists 3%nat; reflexivity
        | exists 4%nat; reflexivity | exists 5%nat; reflexivity
        | exists 6%nat; reflexivity | exists 7%nat; reflexivity
        | exists 8%nat; reflexivity | exists 9%nat; reflexivity
        | exists 10%nat; reflexivity ].

Ltac trace_facts :=
  repeat match goal with
         | |- _ /\ _ => split
         | |- _ <-> _ => split
         | |- exists k : nat, _ => pick_prefix
         | |- _ -> _ => intro
         | H : _ /\ _ |- _ => destruct H
         end;
  try discriminate; try reflexivity; try (cbn in *; lia).

(** Simplifies an accepted [mram_read] or [mram_write] call. *)
Ltac accept_range B addr len :=
  rewrite ?(in_range_accepted B addr len) by assumption;
  rewrite ?(mask_accepted addr) by (rewrite max_address_value in *; lia);
  rewrite ?(size_wrap_small B (len + 4))
    by (try assumption; rewrite max_address_value in *; cbn; lia);
  replace (len =? 0) with false by (symmetry; apply Z.eqb_neq; lia).

(** C3: the calls of [mram_write] are always an initial segment of
    write-enable transaction, data transaction, write-disable transaction;
    it returns true exactly when all nine calls were made and succeeded;
    any failed call makes it return false, also a failure of the
    write-disable after the data went out; when the write-enable
    transaction fails nothing follows it.  The run goes on as long as the
    calls succeed: with a [data] array of at least [len] bytes, a run
    without a failed call makes all nine calls and returns true, and a run
    stops right after its first failed call, except that a failed data
    exchange (the fifth call) is still followed by the pin write that
    drives chip-select high.  The same holds for
    [mram_write_status_register] and its ten calls, which stops right
    after the first failed call in every case. *)
Theorem write_sequencing {W : Type} (B : Z) (h : handlers W) (m : mram)
        (addr : Z) (data : list Z) (len status : Z) (w : W) :
  32 <= B -> 0 <= addr -> 1 <= len -> addr + len - 1 <= MRAM_MAX_ADDRESS ->
  let x := run h (mram_write B (Some m) addr (Some data) len) w in
  let y := run h (mram_write_status_register (Some m) status) w in
  ((exists k, calls (trace_of x) = firstn k (write_calls m addr data len)) /\
   (result_of x = Some true <->
    length (trace_of x) = 9%nat /\ all_ok (trace_of x) = true) /\
   (all_ok (trace_of x) = false -> result_of x = Some false) /\
   (all_ok (firstn 3 (trace_of x)) = false -> (length (trace_of x) <= 3)%nat) /\
   (len <= Z.of_nat (length data) ->
    (all_ok (trace_of x) = true ->
     calls (trace_of x) = write_calls m addr data len /\
     result_of x = Some true) /\
    length (trace_of x)
    = match first_failure (trace_of x) with
      | None => 9%nat
      | Some 4%nat => 6%nat
      | Some j => S j
      end)) /\
  ((exists k, calls (trace_of y) = firstn k (write_status_calls m status)) /\
   (result_of y = Some true <->
    length (trace_of y) = 10%nat /\ all_ok (trace_of y) = true) /\
   (all_ok (trace_of y) = false -> result_of y = Some false) /\
   (all_ok (firstn 3 (trace_of y)) = false -> (length (trace_of y) <= 3)%nat) /\
   (all_ok (trace_of y) = true ->
    calls (trace_of y) = write_status_calls m status /\
    result_of y = Some true) /\
   length (trace_of y)
   = match first_failure (trace_of y) with
     | None => 10%nat
     | Some j => S j
     end).
Proof.
  intros HB Ha Hl Hr. cbv zeta. split.
  - unfold mram_write. accept_range B addr len. cbv zeta.
    destruct (write_tx_buf B addr data len) as [tx|] eqn:Etx.
    + apply write_tx_buf_some in Etx;
        [| assumption | rewrite max_address_value in Hr; cbn; lia].
      destruct Etx as [-> Hdat].
      run_cases; trace_facts.
    + assert (~ len <= Z.of_nat (length data)) as Hshort.
      { intros Hd. rewrite write_tx_buf_total in Etx; try assumption.
        - discriminate Etx.
        - rewrite max_address_value in Hr. cbn. lia. }
      run_cases; trace_facts.
  - run_cases; trace_facts.
Qed.

Lemma write_sequencing_witness :
  let x := run (scripted 0) (mram_write 64 (Some (mk_mram 1 2 5)) 16
                               (Some [1; 2]) 2) [] in
  let y := run (scripted 0) (mram_write_status_register (Some (mk_mram 1 2 5)) 0x8C)
               [] in
  (all_ok (trace_of x) = true /\
   calls (trace_of x) = write_calls (mk_mram 1 2 5) 16 [1; 2] 2 /\
   result_of x = Some true) /\
  (all_ok (trace_of y) = true /\
   calls (trace_of y) = write_status_calls (mk_mram 1 2 5) 0x8C /\
   result_of y = Some true).
Proof.
  cbv zeta.
  pose proof (write_sequencing 64 (scripted 0) (mk_mram 1 2 5) 16 [1; 2] 2 0x8C []
                ltac:(lia) ltac:(lia) ltac:(lia)
                ltac:(rewrite max_address_value; lia)) as H.
  cbv zeta in H. destruct H as [(_ & _ & _ & _ & Hx) (_ & _ & _ & _ & Hy & _)].
  split.
  - split; [reflexivity|]. apply (proj1 (Hx ltac:(cbn; lia))). reflexivity.
  - split; [reflexivity|]. apply Hy. reflexivity.
Defined.

(** ** Reading *)

Lemma length_inbound (n : nat) (stored : list Z) (uninit : nat -> Z) :
  length (inbound n stored uninit) = n.
Proof.
  unfold inbound. rewrite length_app, length_firstn, length_map, length_seq. lia.
Qed.


Lemma length_received (n : nat) (rxd : list Z) :
  length (received n rxd) = Nat.min n (length rxd).
Proof. unfold received. apply length_firstn. Qed.

Lemma nth_received (n : nat) (rxd : list Z) (i : nat) :
  (i < n)%nat -> nth i (received n rxd) 0 = nth i rxd 0.
Proof.
  intros H. unfold received. rewrite nth_firstn.
  now replace (i <? n)%nat with true by (symmetry; apply Nat.ltb_lt; lia).
Qed.

(** The copy loop of [mram_read]: [buffer[i] = rx_buf[i + 4]] for [i < len],
    the rest of [buffer] untouched. *)
Lemma read_copy_some (len : Z) (rxd buf buf' : list Z) :
  1 <= len ->
  copy_loop (Z.to_nat len) 0 (received (Z.to_nat (len + 4)) rxd) 4 buf 0 = Some buf' ->
  length buf' = length buf /\ len <= Z.of_nat (length buf) /\
  len + 4 <= Z.of_nat (length rxd) /\
  forall i, load buf' i =
            if (0 <=? i) && (i <? len)
            then Some (nth (Z.to_nat (i + 4)) rxd 0) else load buf i.
Proof.
  intros Hl E. apply copy_loop_some in E; try lia.
  destruct E as (Hlen & Hb & Hload). destruct Hb as [Hs Hb]; [lia|].
  rewrite length_received in Hs.
  split; [assumption|]. split; [lia|]. split; [lia|].
  intros i. rewrite Hload.
  replace (0 + 0 + Z.of_nat (Z.to_nat len)) with len by lia.
  change (0 + 0) with 0.
  destruct (Z.leb_spec 0 i); destruct (Z.ltb_spec i len); cbn [andb];
    try reflexivity.
  rewrite (load_nth _ _ 0) by (rewrite length_received; lia).
  rewrite nth_received by lia. do 2 f_equal. lia.
Qed.

Lemma read_copy_total (len : Z) (rxd buf : list Z) :
  1 <= len -> len + 4 <= Z.of_nat (length rxd) -> len <= Z.of_nat (length buf) ->
  exists buf',
    copy_loop (Z.to_nat len) 0 (received (Z.to_nat (len + 4)) rxd) 4 buf 0
    = Some buf'.
Proof.
  intros Hl Hr Hb. apply copy_loop_total; try lia.
  rewrite length_received. lia.
Qed.

Ltac copy_step :=
  match goal with
  | |- context [defined (copy_loop ?n ?i ?src ?soff ?dst ?doff)] =>
      let E := fresh "Hcopy" in
      destruct (copy_loop n i src soff dst doff) eqn:E; cbn
  end.

Ltac read_cases B addr len :=
  unfold mram_read; accept_range B addr len; cbv zeta;
  rewrite vla_size by lia; cbn [defined bind]; rewrite repeat_length;
  unfold result_of, trace_of, world_of; cbn;
  repeat (first [call_step | copy_step]).

(** [mram_read] attempts to deselect the chip when the exchange fails. *)
Lemma mram_read_exchange_failure_deasserts {W : Type} (B : Z) (h : handlers W)
      (m : mram) (addr : Z) (buf : list Z) (len : Z) (w w1 w2 : W) (rxd : list Z) :
  32 <= B -> 0 <= addr -> 1 <= len -> addr + len - 1 <= MRAM_MAX_ADDRESS ->
  h_gpio h (gpio_write m) (cs_pin m) MRAM_GPIO_LOW w = (true, w1) ->
  h_spi h (spi_transfer m) (header MRAM_CMD_READ addr)
        (Some (Z.to_nat (len + 4))) (len + 4) w1 = (false, rxd, w2) ->
  let x := run h (mram_read B (Some m) addr (Some buf) len) w in
  result_of x = Some (false, Some buf) /\
  pin_writes (trace_of x)
    = [(cs_pin m, MRAM_GPIO_LOW); (cs_pin m, MRAM_GPIO_HIGH)].
Proof.
  intros HB Ha Hl Hr Hg Hs. cbv zeta.
  unfold mram_read; accept_range B addr len; cbv zeta.
  rewrite vla_size by lia. cbn [defined bind]. rewrite repeat_length.
  unfold result_of, trace_of. cbn. rewrite Hg. cbn. rewrite Hs. cbn.
  destruct (h_gpio h (gpio_write m) (cs_pin m) MRAM_GPIO_HIGH w2); cbn.
  split; reflexivity.
Qed.

(** C6: the calls of an accepted [mram_read] are an initial segment of
    chip-select low, one exchange of [len + 4] bytes, chip-select high, so
    there is never more than that one exchange, and it is made whenever
    chip-select could be driven low; when the read returns true the run
    consists of exactly these three calls, and [buffer[i]] is the byte at
    offset [i + 4] of the [len + 4] bytes of the inbound array for every
    [i < len], the rest of [buffer] being left as it was: the four inbound
    bytes in front never reach the caller.  (The inbound array holds what
    the callee stored and, where it stored nothing, uninitialised
    bytes.) *)
Theorem mram_read_single_exchange {W : Type} (B : Z) (h : handlers W) (m : mram)
        (addr : Z) (buf : list Z) (len : Z) (w : W) :
  32 <= B -> 0 <= addr -> 1 <= len -> addr + len - 1 <= MRAM_MAX_ADDRESS ->
  let x := run h (mram_read B (Some m) addr (Some buf) len) w in
  (exists k, calls (trace_of x) = firstn k (read_calls m addr len)) /\
  (fst (h_gpio h (gpio_write m) (cs_pin m) MRAM_GPIO_LOW w) = true ->
   exchanges (trace_of x) = [(header MRAM_CMD_READ addr, len + 4)]) /\
  (forall r, result_of x = Some (true, r) ->
     exists rxd buf',
       r = Some buf' /\
       trace_of x =
         [ EGpio (gpio_write m) (cs_pin m) MRAM_GPIO_LOW true;
           ESpi (spi_transfer m) (header MRAM_CMD_READ addr)
                (Some (Z.to_nat (len + 4))) (len + 4) true rxd;
           EGpio (gpio_write m) (cs_pin m) MRAM_GPIO_HIGH true ] /\
       len + 4 <= Z.of_nat (length rxd) /\
       length buf' = length buf /\
       forall i, load buf' i =
                 if (0 <=? i) && (i <? len)
                 then Some (nth (Z.to_nat (i + 4)) rxd 0) else load buf i).
Proof.
  intros HB Ha Hl Hr. cbv zeta.
  split; [|split].
  - read_cases B addr len; pick_prefix.
  - read_cases B addr len; intros; try discriminate; reflexivity.
  - read_cases B addr len; intros r E; try discriminate.
    injection E as <-. apply read_copy_some in Hcopy; [|assumption].
    destruct Hcopy as (Hlen & _ & Hfull & Hload).
    eexists; eexists. split; [reflexivity|]. split; [reflexivity|].
    repeat split; assumption.
Qed.

Lemma mram_read_single_exchange_witness :
  let x := run (scripted 0xAA) (mram_read 64 (Some (mk_mram 1 2 5)) 0x10000
                                  (Some [0; 0; 0]) 2) [] in
  result_of x = Some (true, Some [0xAA; 0xAA; 0]) /\
  exists rxd buf',
    Some [0xAA; 0xAA; 0] = Some buf' /\
    trace_of x =
      [ EGpio 1 5 MRAM_GPIO_LOW true;
        ESpi 2 (header MRAM_CMD_READ 0x10000) (Some (Z.to_nat (2 + 4))) (2 + 4)
             true rxd;
        EGpio 1 5 MRAM_GPIO_HIGH true ] /\
    2 + 4 <= Z.of_nat (length rxd) /\
    length buf' = length [0; 0; 0] /\
    forall i, load buf' i =
              if (0 <=? i) && (i <? 2)
              then Some (nth (Z.to_nat (i + 4)) rxd 0) else load [0; 0; 0] i.
Proof.
  cbv zeta. split; [reflexivity|].
  apply (proj2 (proj2 (mram_read_single_exchange 64 (scripted 0xAA) (mk_mram 1 2 5)
                         0x10000 [0; 0; 0] 2 []
                         ltac:(lia) ltac:(lia) ltac:(lia)
                         ltac:(rewrite max_address_value; lia)))).
  reflexivity.
Defined.

(** ** The reference device *)

Lemma header_bytes_address (addr : Z) :
  0 <= addr <= MRAM_MAX_ADDRESS ->
  Chip.address_of [ Z.land (Z.shiftr addr 16) 0xFF;
                    Z.land (Z.shiftr addr 8) 0xFF;
                    Z.land addr 0xFF ] = addr.
Proof.
  intros H. rewrite max_address_value in H. unfold Chip.address_of.
  change 0xFF with (Z.ones 8). rewrite !Z.land_ones by lia.
  rewrite !Z.shiftr_div_pow2 by lia.
  change (2 ^ 8) with 256. change (2 ^ 16) with 65536.
  replace (addr / 65536 mod 256 * 65536 + addr / 256 mod 256 * 256 + addr mod 256)
    with addr.
  - apply mask_accepted. rewrite max_address_value. lia.
  - Z.div_mod_to_equations. lia.
Qed.

Lemma header_top_bits (addr : Z) :
  0 <= addr <= MRAM_MAX_ADDRESS -> 0 <= Z.land (Z.shiftr addr 16) 0xFF < 8.
Proof.
  intros H. rewrite max_address_value in H.
  change 0xFF with (Z.ones 8). rewrite Z.land_ones by lia.
  rewrite Z.shiftr_div_pow2 by lia.
  change (2 ^ 8) with 256. change (2 ^ 16) with 65536.
  Z.div_mod_to_equations. lia.
Qed.

Lemma next_address_in_range (a : Z) :
  0 <= a -> a + 1 <= MRAM_MAX_ADDRESS -> Chip.next_address a = a + 1.
Proof.
  intros H0 H1. unfold Chip.next_address. apply mask_accepted. lia.
Qed.

Lemma exchange_app (c : Chip.state) (a b : list Z) :
  Chip.exchange c (a ++ b) =
  let '(c1, o1) := Chip.exchange c a in
  let '(c2, o2) := Chip.exchange c1 b in
  (c2, o1 ++ o2).
Proof.
  revert c. induction a as [|x a IH]; intros c; cbn [Chip.exchange app].
  - destruct (Chip.exchange c b). reflexivity.
  - destruct (Chip.clock c x) as [c1 i]. rewrite IH.
    destruct (Chip.exchange c1 a) as [c2 o1].
    destruct (Chip.exchange c2 b) as [c3 o2]. reflexivity.
Qed.

(** Data bytes arriving in a write transaction with the latch set are
    stored at consecutive addresses. *)
Lemma exchange_write_data (d : list Z) :
  forall (a a0 : Z) (p : Z) (mm : Z -> Z),
  0 <= a -> a + Z.of_nat (length d) <= MRAM_SIZE_BYTES ->
  (d <> [] -> a0 = a) ->
  let c' := fst (Chip.exchange
                   (Chip.mk_state true (Chip.WriteData a0) true p mm) d) in
  Chip.selected c' = true /\ Chip.wel c' = true /\ Chip.protect_bits c' = p /\
  (forall i, 0 <= i < Z.of_nat (length d) ->
             Chip.mem c' (a + i) = nth (Z.to_nat i) d 0) /\
  (forall x, x < a \/ a + Z.of_nat (length d) <= x -> Chip.mem c' x = mm x).
Proof.
  induction d as [|b d IH]; intros a a0 p mm Ha Hlen Ha0; cbn [Chip.exchange].
  - cbn. repeat split; intros; try reflexivity. cbn in *. lia.
  - rewrite Ha0 by discriminate.
    cbn [Chip.clock Chip.selected Chip.phase_of Chip.wel negb Chip.protect_bits Chip.mem].
    cbn [length] in Hlen.
    specialize (IH (a + 1) (Chip.next_address a) p
                   (fun x => if x =? a then b else mm x)).
    destruct (Chip.exchange _ d) as [c2 inb] eqn:E. cbn [fst] in *.
    destruct IH as (Hs & Hw & Hp & Hin & Hout); try lia.
    { intros Hd. apply next_address_in_range; [lia|].
      rewrite max_address_value. change MRAM_SIZE_BYTES with 524288 in Hlen.
      destruct d; [contradiction | cbn [length] in Hlen; lia]. }
    repeat split; try assumption.
    + intros i Hi. cbn [length] in Hi.
      destruct (Z.eq_dec i 0) as [-> | Hne].
      * rewrite Z.add_0_r, Hout by lia. cbn. now rewrite Z.eqb_refl.
      * replace (a + i) with (a + 1 + (i - 1)) by lia.
        rewrite Hin by lia.
        replace (Z.to_nat i) with (S (Z.to_nat (i - 1))) by lia. reflexivity.
    + intros x Hx. cbn [length] in Hx. rewrite Hout by lia.
      destruct (Z.eqb_spec x a); [lia | reflexivity].
Qed.



Lemma clocked_out_exact (tx : list Z) (len : Z) (out : list Z) :
  length tx = Z.to_nat len -> clocked_out tx len out -> out = tx.
Proof.
  intros Hl [Ho Hf]. rewrite <- Hl in Ho, Hf.
  rewrite firstn_all in Hf. rewrite <- Ho in Hf.
  now rewrite firstn_all in Hf.
Qed.


Lemma chip_command_wren (c : Chip.state) :
  chip_transaction [MRAM_CMD_WREN] c =
  Chip.mk_state false Chip.Ignore true (Chip.protect_bits c) (Chip.mem c).
Proof. reflexivity. Qed.

Lemma chip_command_wrdi (c : Chip.state) :
  chip_transaction [MRAM_CMD_WRDI] c =
  Chip.mk_state false Chip.Ignore false (Chip.protect_bits c) (Chip.mem c).
Proof. reflexivity. Qed.

Lemma exchange_write_header (b1 b2 b3 : Z) (wl : bool) (p : Z) (mm : Z -> Z) :
  Chip.exchange (Chip.mk_state true Chip.Opcode wl p mm) [MRAM_CMD_WRITE; b1; b2; b3]
  = (Chip.mk_state true (Chip.WriteData (Chip.address_of [b1; b2; b3])) wl p mm,
     [0; 0; 0; 0]).
Proof. reflexivity. Qed.




(** ** The driver on a faithful device *)

Lemma chip_faithful (m : mram) (stray : Z) :
  faithful (chip_handlers (cs_pin m) stray) m (fun c => c).
Proof.
  split.
  - intros value w w'. cbn. rewrite Z.eqb_refl. now intros [= <-].
  - intros tx rx len w rxd w'. cbn.
    set (out := firstn (Z.to_nat len) (tx ++ repeat stray (Z.to_nat len))).
    destruct (Chip.exchange w out) as [c' inb] eqn:E.
    intros [= <- <-]. exists out. rewrite E. cbn [fst snd].
    split; [|split; [reflexivity|]].
    + split.
      * unfold out. rewrite length_firstn, length_app, repeat_length. lia.
      * unfold out. rewrite firstn_firstn, firstn_app.
        destruct (Nat.le_ge_cases (length tx) (Z.to_nat len)) as [H | H].
        -- rewrite Nat.min_l by assumption.
           rewrite Nat.sub_diag. cbn [firstn]. rewrite app_nil_r.
           rewrite firstn_all. symmetry. now apply firstn_all2.
        -- rewrite Nat.min_r by assumption.
           replace (Z.to_nat len - length tx)%nat with 0%nat by lia.
           cbn [firstn]. now rewrite app_nil_r.
    + destruct rx; [reflexivity | intros H; now contradiction H].
Qed.

(** Turns the successful capability calls of a run into steps of the chip. *)
Ltac chip_steps F :=
  repeat match goal with
         | H : h_gpio _ _ _ _ _ = (true, _) |- _ =>
             apply (faithful_gpio _ _ _ F) in H
         | H : h_spi _ _ _ _ _ _ = (true, _, _) |- _ =>
             let out := fresh "out" in
             let Hc := fresh "Hclk" in
             let Ha := fresh "Habs" in
             let Hr := fresh "Hrx" in
             apply (faithful_spi _ _ _ F) in H;
             destruct H as (out & Hc & Ha & Hr)
         end.

Ltac chip_chain :=
  unfold chip_transaction;
  repeat match goal with
         | H : ?abs _ = _ |- _ => rewrite H; clear H
         end;
  reflexivity.

Lemma mram_write_faithful {W : Type} (B : Z) (h : handlers W) (m : mram)
      (abs : W -> Chip.state) (addr : Z) (data : list Z) (len : Z) (w : W) :
  32 <= B -> faithful h m abs ->
  0 <= addr -> 1 <= len -> addr + len - 1 <= MRAM_MAX_ADDRESS ->
  let x := run h (mram_write B (Some m) addr (Some data) len) w in
  result_of x = Some true ->
  len <= Z.of_nat (length data) /\
  abs (world_of x) =
    chip_transaction [MRAM_CMD_WRDI]
      (chip_transaction (header MRAM_CMD_WRITE addr ++ firstn (Z.to_nat len) data)
         (chip_transaction [MRAM_CMD_WREN] (abs w))).
Proof.
  intros HB F Ha Hl Hr. cbv zeta.
  unfold mram_write. accept_range B addr len. cbv zeta.
  destruct (write_tx_buf B addr data len) as [tx|] eqn:Etx.
  - apply write_tx_buf_some in Etx;
      [| assumption | rewrite max_address_value in Hr; cbn; lia].
    destruct Etx as [-> Hdat].
    run_cases; intros E; try discriminate E.
    split; [assumption|].
    chip_steps F.
    apply clocked_out_exact in Hclk; [subst out | reflexivity].
    apply clocked_out_exact in Hclk0;
      [subst out0
      | cbn [header app length]; rewrite length_firstn; lia].
    apply clocked_out_exact in Hclk1; [subst out1 | reflexivity].
    chip_chain.
  - run_cases; intros E; discriminate E.
Qed.




(** ** Headers *)

(** C5: for an accepted [mram_read] or [mram_write], every exchange that
    is made carries the expected outbound bytes: the read its opcode 0x03 and
    the three address bytes, most significant first; the write, between the
    write-enable and write-disable bytes, its opcode 0x02, the three address
    bytes and the data.  The exchange with the header is made as soon as
    the calls before it succeeded: by the read once chip-select was driven
    low, by the write (given a [data] array of at least [len] bytes) once
    the write-enable transaction and the pin write after it succeeded.  Of
    the address bytes the first is below 8 (the top five bits of the 24-bit
    field are zero), and they are those of the caller's address: the mask
    changes nothing. *)
Theorem addressed_header {W : Type} (B : Z) (h : handlers W) (m : mram)
        (addr : Z) (buf data : list Z) (len : Z) (w : W) :
  32 <= B -> 0 <= addr -> 1 <= len -> addr + len - 1 <= MRAM_MAX_ADDRESS ->
  let b1 := Z.land (Z.shiftr addr 16) 0xFF in
  let b2 := Z.land (Z.shiftr addr 8) 0xFF in
  let b3 := Z.land addr 0xFF in
  let xr := run h (mram_read B (Some m) addr (Some buf) len) w in
  let xw := run h (mram_write B (Some m) addr (Some data) len) w in
  Z.land addr MRAM_ADDRESS_MASK = addr /\
  0 <= b1 < 8 /\
  (exists k, exchanges (trace_of xr) = firstn k [([0x03; b1; b2; b3], len + 4)]) /\
  (forall r, result_of xr = Some (true, r) ->
             exchanges (trace_of xr) = [([0x03; b1; b2; b3], len + 4)]) /\
  (exists k, exchanges (trace_of xw)
             = firstn k [ ([0x06], 1);
                          ([0x02; b1; b2; b3] ++ firstn (Z.to_nat len) data, len + 4);
                          ([0x04], 1) ]) /\
  (result_of xw = Some true ->
   exchanges (trace_of xw)
   = [ ([0x06], 1);
       ([0x02; b1; b2; b3] ++ firstn (Z.to_nat len) data, len + 4);
       ([0x04], 1) ]) /\
  (all_ok (firstn 1 (trace_of xr)) = true ->
   exchanges (trace_of xr) = [([0x03; b1; b2; b3], len + 4)]) /\
  (len <= Z.of_nat (length data) ->
   (all_ok (firstn 4 (trace_of xw)) = true ->
    exists k, exchanges (trace_of xw)
              = firstn (2 + k)
                  [ ([0x06], 1);
                    ([0x02; b1; b2; b3] ++ firstn (Z.to_nat len) data, len + 4);
                    ([0x04], 1) ]) /\
   (all_ok (trace_of xw) = true ->
    exchanges (trace_of xw)
    = [ ([0x06], 1);
        ([0x02; b1; b2; b3] ++ firstn (Z.to_nat len) data, len + 4);
        ([0x04], 1) ])).
Proof.
  intros HB Ha Hl Hr. cbv zeta.
  split; [apply mask_accepted; lia|].
  split; [apply header_top_bits; lia|].
  assert ((exists k, exchanges
             (trace_of (run h (mram_read B (Some m) addr (Some buf) len) w))
             = firstn k [(header MRAM_CMD_READ addr, len + 4)]) /\
          (forall r, result_of (run h (mram_read B (Some m) addr (Some buf) len) w)
                     = Some (true, r) ->
                     exchanges
                       (trace_of (run h (mram_read B (Some m) addr (Some buf) len) w))
                     = [(header MRAM_CMD_READ addr, len + 4)]) /\
          (all_ok (firstn 1
                     (trace_of (run h (mram_read B (Some m) addr (Some buf) len) w)))
           = true ->
           exchanges (trace_of (run h (mram_read B (Some m) addr (Some buf) len) w))
           = [(header MRAM_CMD_READ addr, len + 4)])) as (R1 & R2 & R3).
  { split; [|split].
    - read_cases B addr len; pick_prefix.
    - read_cases B addr len; intros r E; try discriminate E; reflexivity.
    - read_cases B addr len; intros E; try discriminate E; reflexivity. }
  split; [exact R1|]. split; [exact R2|].
  unfold mram_write. accept_range B addr len. cbv zeta.
  destruct (write_tx_buf B addr data len) as [tx|] eqn:Etx.
  - apply write_tx_buf_some in Etx;
      [| assumption | rewrite max_address_value in Hr; cbn; lia].
    destruct Etx as [-> Hdat].
    split; [|split; [|split; [exact R3|]]].
    + run_cases; pick_prefix.
    + run_cases; intros E; try discriminate E; reflexivity.
    + intros _. split.
      * run_cases; intros E; try discriminate E;
          first [exists 0%nat; reflexivity | exists 1%nat; reflexivity].
      * run_cases; intros E; try discriminate E; reflexivity.
  - assert (~ len <= Z.of_nat (length data)) as Hshort.
    { intros Hd. rewrite write_tx_buf_total in Etx; try assumption.
      - discriminate Etx.
      - rewrite max_address_value in Hr. cbn. lia. }
    split; [|split; [|split; [exact R3|]]].
    + run_cases; pick_prefix.
    + run_cases; intros E; try discriminate E; reflexivity.
    + intros Hd. contradiction.
Qed.

Lemma addressed_header_witness :
  let xr := run (scripted 0) (mram_read 64 (Some (mk_mram 1 2 5)) 0x12345
                                (Some [0; 0]) 2) [] in
  let xw := run (scripted 0) (mram_write 64 (Some (mk_mram 1 2 5)) 0x12345
                                (Some [7; 8]) 2) [] in
  (all_ok (firstn 1 (trace_of xr)) = true /\
   exchanges (trace_of xr) = [([0x03; 0x01; 0x23; 0x45], 6)]) /\
  (all_ok (trace_of xw) = true /\
   exchanges (trace_of xw)
   = [ ([0x06], 1); ([0x02; 0x01; 0x23; 0x45; 7; 8], 6); ([0x04], 1) ]).
Proof.
  cbv zeta.
  pose proof (addressed_header 64 (scripted 0) (mk_mram 1 2 5) 0x12345 [0; 0] [7; 8]
                2 [] ltac:(lia) ltac:(lia) ltac:(lia)
                ltac:(rewrite max_address_value; lia)) as H.
  cbv zeta in H. destruct H as (_ & _ & _ & _ & _ & _ & Hr & Hw).
  split.
  - split; [reflexivity|]. apply Hr. reflexivity.
  - split; [reflexivity|]. apply (proj2 (Hw ltac:(cbn; lia))). reflexivity.
Defined.

(** C7: the outbound bytes of [mram_read] are read from inside an array
    the driver filled.  They are not: the outbound array of [mram_read] has
    the four header bytes only, and the exchange is asked for [len + 4]
    bytes of it; reading one byte at address 0 passes a 4-byte array and
    asks for 5 bytes. *)
Theorem mram_read_outbound_overrun (m : mram) :
  let x := run (scripted 0) (mram_read 64 (Some m) 0 (Some [0]) 1) [] in
  result_of x = Some (true, Some [0]) /\
  exchanges (trace_of x) = [([MRAM_CMD_READ; 0; 0; 0], 5)] /\
  Z.of_nat (length [MRAM_CMD_READ; 0; 0; 0]) < 5.
Proof. cbv zeta. repeat split. Qed.

(** In general: every exchange of an accepted [mram_read] passes the
    4-byte header array and asks for [len + 4] bytes. *)
Lemma mram_read_outbound_short {W : Type} (B : Z) (h : handlers W) (m : mram)
      (addr : Z) (buf : list Z) (len : Z) (w : W) (tx : list Z) (n : Z) :
  32 <= B -> 0 <= addr -> 1 <= len -> addr + len - 1 <= MRAM_MAX_ADDRESS ->
  In (tx, n) (exchanges (trace_of (run h (mram_read B (Some m) addr (Some buf) len) w))) ->
  length tx = 4%nat /\ n = len + 4.
Proof.
  intros HB Ha Hl Hr.
  read_cases B addr len; intros HIn;
    repeat match goal with
           | H : _ \/ _ |- _ => destruct H
           | H : False |- _ => contradiction H
           end;
    match goal with
    | H : (_, _) = (_, _) |- _ => injection H as <- <-
    end; split; reflexivity.
Qed.

(** [mram_write], by contrast, passes an array of [len + 4] bytes. *)
Lemma mram_write_outbound_full (B addr : Z) (dat : list Z) (len : Z) (tx : list Z) :
  32 <= B -> 1 <= len <= MRAM_SIZE_BYTES ->
  write_tx_buf B addr dat len = Some tx -> Z.of_nat (length tx) = len + 4.
Proof.
  intros HB Hl E. apply write_tx_buf_some in E; try assumption.
  destruct E as [-> Hd]. rewrite length_app, length_firstn. cbn [header length]. lia.
Qed.

(** ** Initialisation *)

(** C10: [mram_init] returns false without any call when the handle or a
    capability is NULL.  Otherwise it stores the two capabilities and the
    pin, and then always calls: its calls are a non-empty initial segment
    of chip-select high followed by the write-disable transaction; it
    returns true exactly when all four calls were made and succeeded, and
    false as soon as one fails.  It goes on as long as its calls succeed: a
    run without a failed call makes all four calls and returns true, and a
    run stops right after its first failed call.  On a faithful device a
    successful initialisation leaves the chip deselected with the
    write-enable latch clear. *)
Theorem mram_init_behaviour {W : Type} (h : handlers W) (old : mram)
        (gw st : fnptr) (cs : Z) (abs : W -> Chip.state) (w : W) :
  let m := mk_mram gw st cs in
  let x := run h (mram_init (Some old) gw st cs) w in
  mram_init None gw st cs = Ret (false, None) /\
  (gw = NULLFN \/ st = NULLFN ->
   mram_init (Some old) gw st cs = Ret (false, Some old)) /\
  (gw <> NULLFN -> st <> NULLFN ->
   (exists k, calls (trace_of x)
              = firstn (S k) (CGpio gw cs MRAM_GPIO_HIGH
                                :: command_calls m MRAM_CMD_WRDI)) /\
   (exists r, result_of x = Some (r, Some m)) /\
   (result_of x = Some (true, Some m) <->
    length (trace_of x) = 4%nat /\ all_ok (trace_of x) = true) /\
   (all_ok (trace_of x) = false -> result_of x = Some (false, Some m)) /\
   (faithful h m abs -> result_of x = Some (true, Some m) ->
    Chip.selected (abs (world_of x)) = false /\
    Chip.wel (abs (world_of x)) = false) /\
   (all_ok (trace_of x) = true ->
    calls (trace_of x) = CGpio gw cs MRAM_GPIO_HIGH :: command_calls m MRAM_CMD_WRDI /\
    result_of x = Some (true, Some m)) /\
   length (trace_of x)
   = match first_failure (trace_of x) with
     | None => 4%nat
     | Some j => S j
     end).
Proof.
  cbv zeta. split; [reflexivity|]. split.
  - intros [-> | ->]; unfold mram_init.
    + reflexivity.
    + now rewrite Z.eqb_refl, orb_true_r.
  - intros Hg Hs. unfold mram_init.
    replace (gw =? NULLFN) with false by (symmetry; now apply Z.eqb_neq).
    replace (st =? NULLFN) with false by (symmetry; now apply Z.eqb_neq).
    cbn [orb].
    split; [|split; [|split; [|split; [|split; [|split]]]]].
    + run_cases; pick_prefix.
    + run_cases; eexists; reflexivity.
    + run_cases; trace_facts.
    + run_cases; trace_facts.
    + intros F. run_cases; intros E; try discriminate E.
      chip_steps F.
      apply clocked_out_exact in Hclk; [subst out | reflexivity].
      rewrite Hgpio1, Habs, Hgpio0. split; reflexivity.
    + run_cases; trace_facts.
    + run_cases; reflexivity.
Qed.

Lemma mram_init_behaviour_witness :
  let h := chip_handlers 9 0 in
  let c := Chip.mk_state true Chip.Opcode true 0 (fun _ => 0) in
  let x := run h (mram_init (Some (mk_mram 0 0 0)) 1 2 9) c in
  all_ok (trace_of x) = true /\
  (calls (trace_of x)
   = CGpio 1 9 MRAM_GPIO_HIGH :: command_calls (mk_mram 1 2 9) MRAM_CMD_WRDI /\
   result_of x = Some (true, Some (mk_mram 1 2 9))) /\
  Chip.selected (world_of x) = false /\ Chip.wel (world_of x) = false.
Proof.
  cbv zeta.
  pose proof (mram_init_behaviour (chip_handlers 9 0) (mk_mram 0 0 0) 1 2 9
                (fun c => c) (Chip.mk_state true Chip.Opcode true 0 (fun _ => 0)))
    as H.
  cbv zeta in H. destruct H as (_ & _ & H).
  destruct (H ltac:(discriminate) ltac:(discriminate))
    as (_ & _ & _ & _ & Hchip & Hgo & _).
  split; [reflexivity|]. split; [apply Hgo; reflexivity|].
  apply Hchip; [apply (chip_faithful (mk_mram 1 2 9)) | reflexivity].
Defined.


(** * Further properties of mram.c *)

(** Case analysis for [mram_read] and [mram_write] on arbitrary arguments. *)
Ltac any_read B addr len :=
  unfold mram_read;
  destruct (len =? 0); [cbn | destruct (out_of_range B addr len); [cbn |]];
  [ .. | cbv zeta; destruct (vla (size_wrap B (len + 4))); cbn [defined bind];
         unfold result_of, trace_of, world_of; cbn;
         repeat (first [call_step | copy_step]) ].

Ltac any_write B addr len :=
  unfold mram_write;
  destruct (len =? 0); [cbn | destruct (out_of_range B addr len); [cbn |]];
  [ .. | cbv zeta;
         match goal with
         | |- context [write_tx_buf B ?a ?d len] =>
             destruct (write_tx_buf B a d len)
         end;
         unfold result_of, trace_of, world_of; cbn; repeat call_step ].

(** ** NULL handles *)

(** With a NULL handle every operation returns false and makes no call; so
    does [mram_read_status_register] when its [status] pointer is NULL,
    whatever the handle. *)
Lemma null_handle_no_call (tx status n : Z) (rx : bool) (mram : mram_ptr) :
  mram_transfer_byte None tx rx = Ret (false, None) /\
  mram_write_enable None = Ret false /\
  mram_write_disable None = Ret false /\
  mram_sleep None = Ret false /\
  mram_wake None = Ret false /\
  mram_read_status_register None (Some status) = Ret (false, Some status) /\
  mram_read_status_register mram None = Ret (false, None) /\
  mram_write_status_register None status = Ret false /\
  mram_is_write_enabled None = Ret false /\
  mram_is_write_protected None = Ret false /\
  mram_is_block_protected None n = Ret false.
Proof. repeat split; try reflexivity. now destruct mram. Qed.

(** ** Single-byte commands *)

(** X1: [mram_write_enable] and [mram_write_disable] make the three calls
    of one command transaction, cut short at the first failing call: their
    calls are an initial segment of the transaction, a run without a
    failed call makes all three calls and returns true, a run stops right
    after its first failed call, and they return true exactly when all
    three calls were made and succeeded and false otherwise. *)
Theorem latch_command_transaction {W : Type} (h : handlers W) (m : mram) (w : W) :
  let e := run h (mram_write_enable (Some m)) w in
  let d := run h (mram_write_disable (Some m)) w in
  ((exists k, calls (trace_of e) = firstn k (command_calls m MRAM_CMD_WREN)) /\
   (result_of e = Some true <->
    length (trace_of e) = 3%nat /\ all_ok (trace_of e) = true) /\
   (result_of e = Some true \/ result_of e = Some false) /\
   all_ok (removelast (trace_of e)) = true /\
   (all_ok (trace_of e) = true ->
    calls (trace_of e) = command_calls m MRAM_CMD_WREN /\
    result_of e = Some true) /\
   length (trace_of e)
   = match first_failure (trace_of e) with None => 3%nat | Some j => S j end) /\
  ((exists k, calls (trace_of d) = firstn k (command_calls m MRAM_CMD_WRDI)) /\
   (result_of d = Some true <->
    length (trace_of d) = 3%nat /\ all_ok (trace_of d) = true) /\
   (result_of d = Some true \/ result_of d = Some false) /\
   all_ok (removelast (trace_of d)) = true /\
   (all_ok (trace_of d) = true ->
    calls (trace_of d) = command_calls m MRAM_CMD_WRDI /\
    result_of d = Some true) /\
   length (trace_of d)
   = match first_failure (trace_of d) with None => 3%nat | Some j => S j end).
Proof.
  cbv zeta.
  split; run_cases; trace_facts;
    first [left; reflexivity | right; reflexivity].
Qed.

Lemma latch_command_transaction_witness :
  let e := run (scripted 0) (mram_write_enable (Some (mk_mram 1 2 5))) [] in
  let d := run (scripted 0) (mram_write_disable (Some (mk_mram 1 2 5))) [] in
  (all_ok (trace_of e) = true /\
   calls (trace_of e) = command_calls (mk_mram 1 2 5) MRAM_CMD_WREN /\
   result_of e = Some true) /\
  (all_ok (trace_of d) = true /\
   calls (trace_of d) = command_calls (mk_mram 1 2 5) MRAM_CMD_WRDI /\
   result_of d = Some true).
Proof.
  cbv zeta.
  pose proof (latch_command_transaction (scripted 0) (mk_mram 1 2 5) []) as H.
  cbv zeta in H. destruct H as [(_ & _ & _ & _ & He & _) (_ & _ & _ & _ & Hd & _)].
  split.
  - split; [reflexivity | apply He; reflexivity].
  - split; [reflexivity | apply Hd; reflexivity].
Defined.

(** X2: [mram_sleep] and [mram_wake] call [usleep] exactly when they return
    true, once, with their settling time; a run that fails never waits. *)
Theorem settle_only_on_success {W : Type} (h : handlers W) (m : mram) (w : W) :
  let s := run h (mram_sleep (Some m)) w in
  let k := run h (mram_wake (Some m)) w in
  delays (trace_of s)
    = match result_of s with Some true => [MRAM_TDP_US] | _ => [] end /\
  delays (trace_of k)
    = match result_of k with Some true => [MRAM_TRDP_US] | _ => [] end.
Proof.
  cbv zeta. split; run_cases; reflexivity.
Qed.

(** ** What every run looks like *)

Ltac own_events :=
  repeat match goal with
         | |- Forall _ [] => constructor
         | |- Forall _ (_ :: _) => constructor
         | |- own_event _ _ => cbn; auto
         end.

(** X3: whatever the arguments and however the capabilities answer, every
    pin write of every operation goes through the handle's [gpio_write] to
    the handle's [cs_pin], and every exchange through the handle's
    [spi_transfer]: no other pin and no other function is ever used. *)
Theorem only_own_capabilities {W : Type} (B : Z) (h : handlers W) (m : mram)
        (addr len status n : Z) (buffer data : option (list Z)) (w : W) :
  let own {A : Type} (p : prog A) := Forall (own_event m) (trace_of (run h p w)) in
  own (mram_write_enable (Some m)) /\
  own (mram_write_disable (Some m)) /\
  own (mram_read B (Some m) addr buffer len) /\
  own (mram_write B (Some m) addr data len) /\
  own (mram_sleep (Some m)) /\
  own (mram_wake (Some m)) /\
  own (mram_read_status_register (Some m) (Some status)) /\
  own (mram_write_status_register (Some m) status) /\
  own (mram_is_write_enabled (Some m)) /\
  own (mram_is_write_protected (Some m)) /\
  own (mram_is_block_protected (Some m) n).
Proof.
  cbv zeta. repeat split.
  - run_cases; own_events.
  - run_cases; own_events.
  - destruct buffer as [buf|]; [|constructor].
    any_read B addr len; own_events.
  - destruct data as [dat|]; [|constructor].
    any_write B addr len; own_events.
  - run_cases; own_events.
  - run_cases; own_events.
  - run_cases; own_events.
  - run_cases; own_events.
  - run_cases; own_events.
  - run_cases; own_events.
  - unfold mram_is_block_protected. destruct (int_shl 4 n); run_cases; own_events.
Qed.

(** X4: whatever the arguments and however the capabilities answer, every
    run is framed by chip-select: bytes are exchanged only after a
    successful pin write drove chip-select low and before it is driven
    high again, [usleep] is called only with chip-select high, no call
    follows a failed pin write, and a failed exchange is followed by
    nothing but, at most, one pin write driving chip-select high.
    [mram_init] starts by driving chip-select high, so this holds for it
    whatever state the line was in. *)
Theorem chip_select_framing {W : Type} (B : Z) (h : handlers W) (m old : mram)
        (addr len status n : Z) (gw st cs : fnptr)
        (buffer data : option (list Z)) (sel : bool) (w : W) :
  let ok {A : Type} (p : prog A) := framed false (trace_of (run h p w)) = true in
  ok (mram_write_enable (Some m)) /\
  ok (mram_write_disable (Some m)) /\
  ok (mram_read B (Some m) addr buffer len) /\
  ok (mram_write B (Some m) addr data len) /\
  ok (mram_sleep (Some m)) /\
  ok (mram_wake (Some m)) /\
  ok (mram_read_status_register (Some m) (Some status)) /\
  ok (mram_write_status_register (Some m) status) /\
  ok (mram_is_write_enabled (Some m)) /\
  ok (mram_is_write_protected (Some m)) /\
  ok (mram_is_block_protected (Some m) n) /\
  framed sel (trace_of (run h (mram_init (Some old) gw st cs) w)) = true.
Proof.
  cbv zeta. repeat split.
  - run_cases; reflexivity.
  - run_cases; reflexivity.
  - destruct buffer as [buf|]; [|reflexivity].
    any_read B addr len; reflexivity.
  - destruct data as [dat|]; [|reflexivity].
    any_write B addr len; reflexivity.
  - run_cases; reflexivity.
  - run_cases; reflexivity.
  - run_cases; reflexivity.
  - run_cases; reflexivity.
  - run_cases; reflexivity.
  - run_cases; reflexivity.
  - unfold mram_is_block_protected. destruct (int_shl 4 n); run_cases; reflexivity.
  - unfold mram_init.
    destruct ((gw =? NULLFN) || (st =? NULLFN)); run_cases; reflexivity.
Qed.

(** ** The status register read *)

(** X5: [mram_read_status_register] selects the chip, sends the opcode
    0x05 with no inbound buffer and then the filler byte 0xFF with a
    one-byte inbound buffer, all within one chip-select assertion.  When one
    of these three calls fails it returns false at once and [*status] is
    as it was.  When they succeed, [*status] is overwritten with the byte
    found in the inbound buffer (the byte the callee stored, or the
    uninitialised byte if it stored none) and the chip is deselected; the
    result is the answer of that last pin write, so that a failure of it
    gives false with [*status] already overwritten.  It returns true
    exactly at the end of a run of these four calls, all successful. *)
Theorem read_status_register_run {W : Type} (h : handlers W) (m : mram)
        (status : Z) (w : W) :
  let x := run h (mram_read_status_register (Some m) (Some status)) w in
  (all_ok (firstn 3 (trace_of x)) = false ->
   result_of x = Some (false, Some status) /\
   all_ok (removelast (trace_of x)) = true /\
   (length (trace_of x) <= 3)%nat) /\
  (all_ok (firstn 3 (trace_of x)) = true ->
   exists rxd0 b ok,
     trace_of x =
       [ EGpio (gpio_write m) (cs_pin m) MRAM_GPIO_LOW true;
         ESpi (spi_transfer m) [MRAM_CMD_RDSR] None 1 true rxd0;
         ESpi (spi_transfer m) [0xFF] (Some 1%nat) 1 true [b];
         EGpio (gpio_write m) (cs_pin m) MRAM_GPIO_HIGH ok ] /\
     result_of x = Some (ok, Some b)) /\
  (forall s, result_of x = Some (true, s) <->
     exists rxd0 b,
       trace_of x =
         [ EGpio (gpio_write m) (cs_pin m) MRAM_GPIO_LOW true;
           ESpi (spi_transfer m) [MRAM_CMD_RDSR] None 1 true rxd0;
           ESpi (spi_transfer m) [0xFF] (Some 1%nat) 1 true [b];
           EGpio (gpio_write m) (cs_pin m) MRAM_GPIO_HIGH true ] /\
       s = Some b) /\
  (forall w1 rxd0 w2 stored w3,
     h_gpio h (gpio_write m) (cs_pin m) MRAM_GPIO_LOW w = (true, w1) ->
     h_spi h (spi_transfer m) [MRAM_CMD_RDSR] None 1 w1 = (true, rxd0, w2) ->
     h_spi h (spi_transfer m) [0xFF] (Some 1%nat) 1 w2 = (true, stored, w3) ->
     exists ok,
       result_of x
       = Some (ok, Some (match stored with
                         | [] => h_uninit h w2 0
                         | b :: _ => b
                         end))).
Proof.
  cbv zeta. split; [|split; [|split]].
  - run_cases; intros E; try discriminate E; repeat split; cbn; lia.
  - run_cases; intros E; try discriminate E;
      eexists; eexists; eexists; split; reflexivity.
  - intros s. split.
    + run_cases; intros E; try discriminate E; injection E as <-;
        eexists; eexists; split; reflexivity.
    + run_cases; intros (r0 & b' & Ht & ->); try discriminate Ht;
        injection Ht as _ ->; reflexivity.
  - intros w1 rxd0 w2 stored w3 Hg H1 H2.
    unfold result_of. cbn. rewrite Hg. cbn. rewrite H1. cbn. rewrite H2.
    destruct stored as [|b t]; cbn;
      destruct (h_gpio h (gpio_write m) (cs_pin m) MRAM_GPIO_HIGH w3) as [ok w4];
      destruct ok; cbn; eexists; reflexivity.
Qed.

Lemma read_status_register_run_witness :
  let x := run (scripted 0x8C) (mram_read_status_register (Some (mk_mram 1 2 5))
                                  (Some 0)) [true; true; true; false] in
  all_ok (firstn 3 (trace_of x)) = true /\
  exists rxd0 b ok,
    trace_of x =
      [ EGpio 1 5 MRAM_GPIO_LOW true;
        ESpi 2 [MRAM_CMD_RDSR] None 1 true rxd0;
        ESpi 2 [0xFF] (Some 1%nat) 1 true [b];
        EGpio 1 5 MRAM_GPIO_HIGH ok ] /\
    result_of x = Some (ok, Some b).
Proof.
  cbv zeta. split; [reflexivity|].
  apply (proj1 (proj2 (read_status_register_run (scripted 0x8C) (mk_mram 1 2 5) 0
                         [true; true; true; false]))).
  reflexivity.
Defined.

(** ** The buffer of a failed read *)

(** X6: when the pin write that selects the chip or the exchange of an
    accepted [mram_read] fails, the read returns false and the caller's
    buffer is exactly as it was.  When both succeed (the buffer having
    room for [len] bytes), the bytes of the inbound array from offset 4 on
    are copied into [buffer[0 .. len-1]] and the result is the answer of the
    final pin write: if that one fails, the read returns false although
    the buffer already holds the data.  The inbound array holds what the
    callee stored and, where it stored nothing, uninitialised bytes. *)
Theorem mram_read_failure_buffer {W : Type} (B : Z) (h : handlers W) (m : mram)
        (addr : Z) (buf : list Z) (len : Z) (w : W) :
  32 <= B -> 0 <= addr -> 1 <= len -> addr + len - 1 <= MRAM_MAX_ADDRESS ->
  let x := run h (mram_read B (Some m) addr (Some buf) len) w in
  (all_ok (firstn 2 (trace_of x)) = false ->
   result_of x = Some (false, Some buf)) /\
  (forall w1 stored w2 ok w3,
     h_gpio h (gpio_write m) (cs_pin m) MRAM_GPIO_LOW w = (true, w1) ->
     h_spi h (spi_transfer m) (header MRAM_CMD_READ addr)
           (Some (Z.to_nat (len + 4))) (len + 4) w1 = (true, stored, w2) ->
     h_gpio h (gpio_write m) (cs_pin m) MRAM_GPIO_HIGH w2 = (ok, w3) ->
     len <= Z.of_nat (length buf) ->
     let rxd := inbound (Z.to_nat (len + 4)) stored (h_uninit h w1) in
     exists buf',
       result_of x = Some (ok, Some buf') /\
       trace_of x =
         [ EGpio (gpio_write m) (cs_pin m) MRAM_GPIO_LOW true;
           ESpi (spi_transfer m) (header MRAM_CMD_READ addr)
                (Some (Z.to_nat (len + 4))) (len + 4) true rxd;
           EGpio (gpio_write m) (cs_pin m) MRAM_GPIO_HIGH ok ] /\
       length buf' = length buf /\
       forall i, load buf' i =
                 if (0 <=? i) && (i <? len)
                 then Some (nth (Z.to_nat (i + 4)) rxd 0)
                 else load buf i).
Proof.
  intros HB Ha Hl Hr. cbv zeta. split.
  - read_cases B addr len; intros Hok; try discriminate Hok; reflexivity.
  - intros w1 stored w2 ok w3 Hg Hs Hg2 Hroom.
    set (rxd := inbound (Z.to_nat (len + 4)) stored (h_uninit h w1)).
    assert (len + 4 <= Z.of_nat (length rxd)) as Hfull
        by (unfold rxd; rewrite length_inbound; lia).
    destruct (read_copy_total len rxd buf Hl Hfull Hroom) as [buf' Hcp].
    exists buf'.
    pose proof (read_copy_some len rxd buf buf' Hl Hcp) as (Hlen & _ & _ & Hload).
    unfold mram_read; accept_range B addr len; cbv zeta.
    rewrite vla_size by lia. cbn [defined bind]. rewrite repeat_length.
    unfold result_of, trace_of. cbn. rewrite Hg. cbn. rewrite Hs. cbn.
    fold rxd. rewrite Hcp. cbn. rewrite Hg2.
    destruct ok; cbn; repeat split; assumption.
Qed.

Lemma mram_read_failure_buffer_witness :
  let x := run (scripted 0xAA) (mram_read 64 (Some (mk_mram 1 2 5)) 16
                                  (Some [0; 0; 0]) 2) [true; true; false] in
  exists buf',
    result_of x = Some (false, Some buf') /\
    trace_of x =
      [ EGpio 1 5 MRAM_GPIO_LOW true;
        ESpi 2 (header MRAM_CMD_READ 16) (Some (Z.to_nat (2 + 4))) (2 + 4) true
             (inbound (Z.to_nat (2 + 4)) (repeat 0xAA 6) (fun _ => 0xCC));
        EGpio 1 5 MRAM_GPIO_HIGH false ] /\
    length buf' = length [0; 0; 0] /\
    forall i, load buf' i =
              if (0 <=? i) && (i <? 2)
              then Some (nth (Z.to_nat (i + 4))
                             (inbound (Z.to_nat (2 + 4)) (repeat 0xAA 6)
                                      (fun _ => 0xCC)) 0)
              else load [0; 0; 0] i.
Proof.
  cbv zeta.
  apply (proj2 (mram_read_failure_buffer 64 (scripted 0xAA) (mk_mram 1 2 5) 16
                  [0; 0; 0] 2 [true; true; false]
                  ltac:(lia) ltac:(lia) ltac:(lia)
                  ltac:(rewrite max_address_value; lia))
           [true; false] (repeat 0xAA 6) [false] false []);
    try reflexivity; cbn; lia.
Defined.

(** ** The range check, exactly *)

Lemma out_of_range_wrap (B addr len : Z) :
  32 <= B -> 0 <= addr < 2 ^ 32 -> 1 <= len < 2 ^ B ->
  out_of_range B addr len = false <->
  addr <= MRAM_MAX_ADDRESS /\
  (addr + len - 1 <= MRAM_MAX_ADDRESS \/ 2 ^ B < addr + len).
Proof.
  intros HB Ha Hl. pose proof (pow2_size_bits B HB) as HP.
  change (2 ^ 32) with 4294967296 in *.
  unfold out_of_range, size_wrap. rewrite max_address_value, !Z.gtb_ltb.
  rewrite orb_false_iff, !Z.ltb_ge.
  destruct (Z.le_gt_cases addr 524287) as [Hin | Hout]; [|lia].
  destruct (Z.lt_total (addr + len) (2 ^ B)) as [Hlt | [Heq | Hgt]].
  - rewrite (Z.mod_small (addr + len)) by lia. rewrite Z.mod_small by lia. lia.
  - rewrite Heq, Z.mod_same by lia.
    replace ((0 - 1) mod 2 ^ B) with (2 ^ B - 1)
      by (apply Z.mod_unique with (q := -1); lia).
    lia.
  - replace ((addr + len) mod 2 ^ B) with (addr + len - 2 ^ B)
      by (apply Z.mod_unique with (q := 1); lia).
    rewrite Z.mod_small by lia. lia.
Qed.

(** X7: for arguments of the C types ([addr] a [uint32_t], [len] a
    [size_t]) and non-NULL pointers, [mram_read] and [mram_write] return
    false at once exactly when [len] is zero, [addr] lies outside the
    address space, or the range ends outside it without [addr + len]
    exceeding [2 ^ B].  Every other request goes on: all those within the
    address space, up to the last byte, and also those whose [addr + len]
    exceeds [2 ^ B]. *)
Theorem rejected_exactly (B : Z) (m : mram) (addr : Z) (buf : list Z) (len : Z) :
  32 <= B -> 0 <= addr < 2 ^ 32 -> 0 <= len < 2 ^ B ->
  let rejected :=
    len = 0 \/ addr > MRAM_MAX_ADDRESS \/
    (addr + len - 1 > MRAM_MAX_ADDRESS /\ addr + len <= 2 ^ B) in
  (mram_read B (Some m) addr (Some buf) len = Ret (false, Some buf) <-> rejected) /\
  (mram_write B (Some m) addr (Some buf) len = Ret false <-> rejected).
Proof.
  intros HB Ha Hl. cbv zeta.
  split; (split; [|intros Hrej]).
  - unfold mram_read.
    destruct (len =? 0) eqn:El; [intros _; left; now apply Z.eqb_eq|].
    destruct (out_of_range B addr len) eqn:Eo.
    + intros _. right. apply Z.eqb_neq in El.
      destruct (Z.le_gt_cases addr MRAM_MAX_ADDRESS) as [Hin | Hout]; [|lia].
      right. destruct (Z.le_gt_cases (addr + len - 1) MRAM_MAX_ADDRESS) as [H1 | H1].
      * assert (out_of_range B addr len = false) as Hf
            by (apply out_of_range_wrap; try lia).
        congruence.
      * split; [lia|].
        destruct (Z.le_gt_cases (addr + len) (2 ^ B)) as [H2 | H2]; [assumption|].
        assert (out_of_range B addr len = false) as Hf
            by (apply out_of_range_wrap; try lia).
        congruence.
    + cbv zeta. destruct (vla (size_wrap B (len + 4))); cbn; discriminate.
  - apply mram_read_rejects; try lia; destruct Hrej as [H | [H | H]]; auto.
  - unfold mram_write.
    destruct (len =? 0) eqn:El; [intros _; left; now apply Z.eqb_eq|].
    destruct (out_of_range B addr len) eqn:Eo.
    + intros _. right. apply Z.eqb_neq in El.
      destruct (Z.le_gt_cases addr MRAM_MAX_ADDRESS) as [Hin | Hout]; [|lia].
      right. destruct (Z.le_gt_cases (addr + len - 1) MRAM_MAX_ADDRESS) as [H1 | H1].
      * assert (out_of_range B addr len = false) as Hf
            by (apply out_of_range_wrap; try lia).
        congruence.
      * split; [lia|].
        destruct (Z.le_gt_cases (addr + len) (2 ^ B)) as [H2 | H2]; [assumption|].
        assert (out_of_range B addr len = false) as Hf
            by (apply out_of_range_wrap; try lia).
        congruence.
    + cbn. discriminate.
  - apply mram_write_rejects; try lia; destruct Hrej as [H | [H | H]]; auto.
Qed.

Lemma rejected_exactly_witness :
  mram_read 64 (Some (mk_mram 1 2 5)) 524287 (Some [0; 0]) 2
    = Ret (false, Some [0; 0]) /\
  mram_read 64 (Some (mk_mram 1 2 5)) 524287 (Some [0; 0]) 1
    <> Ret (false, Some [0; 0]).
Proof.
  split.
  - apply (proj1 (rejected_exactly 64 (mk_mram 1 2 5) 524287 [0; 0] 2
                    ltac:(lia) ltac:(lia) ltac:(lia))).
    right. right. rewrite max_address_value. lia.
  - intros E.
    apply (proj1 (rejected_exactly 64 (mk_mram 1 2 5) 524287 [0; 0] 1
                    ltac:(lia) ltac:(lia) ltac:(lia))) in E.
    rewrite max_address_value in E. lia.
Defined.

(** ** Block numbers *)

Lemma shiftl_4_pow2 (n : Z) : 0 <= n -> Z.shiftl 4 n = 2 ^ (2 + n).
Proof.
  intros Hn. rewrite Z.shiftl_mul_pow2 by lia.
  rewrite Z.pow_add_r by lia. reflexivity.
Qed.

Lemma int_shl_4 (n : Z) : 0 <= n <= 28 -> int_shl 4 n = Some (2 ^ (2 + n)).
Proof.
  intros Hn. unfold int_shl. rewrite shiftl_4_pow2 by lia.
  replace (0 <=? n) with true by (symmetry; apply Z.leb_le; lia).
  replace (2 ^ (2 + n) <? 2 ^ 31) with true; [reflexivity|].
  symmetry. apply Z.ltb_lt. apply Z.pow_lt_mono_r; lia.
Qed.

(** X8: [mram_is_block_protected] does not check its block number: for
    every [block_number] from 0 to 28 it runs one status-register read and
    answers with bit [2 + block_number] of the byte read, so that block 5,
    for one, answers with the write-protect-enable bit 7. *)
Theorem block_protected_any_block {W : Type} (h : handlers W) (m : mram)
        (n : Z) (w : W) :
  0 <= n <= 28 ->
  let x := run h (mram_read_status_register (Some m) (Some uninit_byte)) w in
  run h (mram_is_block_protected (Some m) n) w =
  (match result_of x with
   | Some (true, s) => Some (Z.testbit (status_value s) (2 + n))
   | Some (false, _) => Some false
   | None => None
   end, trace_of x, world_of x).
Proof.
  intros Hn. cbv zeta. unfold mram_is_block_protected.
  rewrite int_shl_4 by assumption.
  pose proof (fun s => to_bool_land_pow2 s (2 + n) ltac:(lia)) as Hbit.
  run_cases; rewrite ?Hbit; reflexivity.
Qed.

Lemma block_protected_any_block_witness :
  run (scripted 0x80) (mram_is_block_protected (Some (mk_mram 1 2 5)) 5) [] =
  (Some (Z.testbit 0x80 (2 + 5)),
   trace_of (run (scripted 0x80)
               (mram_read_status_register (Some (mk_mram 1 2 5)) (Some uninit_byte)) []),
   []).
Proof.
  apply (block_protected_any_block (scripted 0x80) (mk_mram 1 2 5) 5 []). lia.
Defined.

(** ** More on the reference device *)

Lemma chip_write_transaction_frame (c : Chip.state) (addr : Z) (d : list Z) :
  0 <= addr -> addr + Z.of_nat (length d) <= MRAM_SIZE_BYTES ->
  1 <= Z.of_nat (length d) ->
  Chip.wel c = true ->
  let c' := chip_transaction (header MRAM_CMD_WRITE addr ++ d) c in
  Chip.protect_bits c' = Chip.protect_bits c /\
  (forall i, 0 <= i < Z.of_nat (length d) ->
             Chip.mem c' (addr + i) = nth (Z.to_nat i) d 0) /\
  (forall x, x < addr \/ addr + Z.of_nat (length d) <= x ->
             Chip.mem c' x = Chip.mem c x).
Proof.
  intros Ha Hlen Hd Hw. cbv zeta. unfold chip_transaction.
  destruct c as [s ph wl p mm]. cbn in Hw. subst wl.
  change (Chip.select MRAM_GPIO_LOW (Chip.mk_state s ph true p mm))
    with (Chip.mk_state true Chip.Opcode true p mm).
  rewrite exchange_app. unfold header. rewrite exchange_write_header.
  rewrite header_bytes_address
    by (rewrite max_address_value; change MRAM_SIZE_BYTES with 524288 in Hlen; lia).
  pose proof (exchange_write_data d addr addr p mm Ha Hlen (fun _ => eq_refl)) as H.
  cbv zeta in H.
  destruct (Chip.exchange _ d) as [c2 o2]. cbn [fst] in *.
  destruct H as (Hs & Hw2 & Hp & Hin & Hout).
  destruct c2 as [s2 ph2 wl2 p2 mm2]. cbn in *. subst.
  repeat split; assumption.
Qed.


(** What a successful [mram_write] does to a faithful device. *)
Lemma mram_write_device {W : Type} (B : Z) (h : handlers W) (m : mram)
        (abs : W -> Chip.state) (addr : Z) (data : list Z) (len : Z) (w : W) :
  32 <= B -> faithful h m abs ->
  0 <= addr -> 1 <= len -> addr + len - 1 <= MRAM_MAX_ADDRESS ->
  let x := run h (mram_write B (Some m) addr (Some data) len) w in
  result_of x = Some true ->
  let c := abs w in
  let c' := abs (world_of x) in
  (forall i, 0 <= i < len -> load data i = Some (Chip.mem c' (addr + i))) /\
  (forall a, a < addr \/ addr + len <= a -> Chip.mem c' a = Chip.mem c a) /\
  Chip.protect_bits c' = Chip.protect_bits c /\
  Chip.wel c' = false /\ Chip.selected c' = false.
Proof.
  intros HB F Ha Hl Hr x Hx c c'. subst x c c'.
  destruct (mram_write_faithful B h m abs addr data len w HB F Ha Hl Hr Hx)
    as [Hdat Habs].
  rewrite Habs, chip_command_wrdi. cbn [Chip.mem Chip.protect_bits Chip.wel Chip.selected].
  rewrite max_address_value in Hr.
  pose proof (chip_write_transaction_frame
                (chip_transaction [MRAM_CMD_WREN] (abs w)) addr
                (firstn (Z.to_nat len) data)) as Hwr.
  rewrite length_firstn in Hwr.
  replace (Z.of_nat (Nat.min (Z.to_nat len) (length data))) with len in Hwr by lia.
  change MRAM_SIZE_BYTES with 524288 in Hwr.
  destruct Hwr as (Hp & Hmem & Hframe); try lia; [reflexivity|].
  rewrite chip_command_wren in Hp, Hframe. cbn [Chip.mem Chip.protect_bits] in Hp, Hframe.
  repeat split; try assumption.
  intros i Hi. rewrite Hmem by lia. rewrite nth_firstn.
    replace (Z.to_nat i <? Z.to_nat len)%nat with true
      by (symmetry; apply Nat.ltb_lt; lia).
    apply load_nth. lia.
Qed.

(** X9: on a faithful device a successful [mram_write] changes the memory
    at the [len] addresses from [addr] on, which then hold the first [len]
    bytes of [data], and nowhere else; it leaves the protection bits as
    they were, the write-enable latch clear and the chip deselected. *)
Theorem mram_write_effect {W : Type} (B : Z) (h : handlers W) (m : mram)
        (abs : W -> Chip.state) (addr : Z) (data : list Z) (len : Z) (w : W) :
  32 <= B -> faithful h m abs ->
  0 <= addr -> 1 <= len -> addr + len - 1 <= MRAM_MAX_ADDRESS ->
  let x := run h (mram_write B (Some m) addr (Some data) len) w in
  result_of x = Some true ->
  let c := abs w in
  let c' := abs (world_of x) in
  (forall i, 0 <= i < len -> load data i = Some (Chip.mem c' (addr + i))) /\
  (forall a, a < addr \/ addr + len <= a -> Chip.mem c' a = Chip.mem c a) /\
  Chip.protect_bits c' = Chip.protect_bits c /\
  Chip.wel c' = false /\ Chip.selected c' = false.
Proof.
  intros HB F Ha Hl Hr x Hx.
  exact (mram_write_device B h m abs addr data len w HB F Ha Hl Hr Hx).
Qed.

Lemma mram_write_effect_witness :
  let h := chip_handlers 7 0x55 in
  let x := run h (mram_write 64 (Some (mk_mram 100 200 7)) 0x7FFFE
                    (Some [0x11; 0x22]) 2) (chip_reset 0xEE) in
  result_of x = Some true /\
  (forall i, 0 <= i < 2 ->
             load [0x11; 0x22] i = Some (Chip.mem (world_of x) (0x7FFFE + i))) /\
  (forall a, a < 0x7FFFE \/ 0x7FFFE + 2 <= a ->
             Chip.mem (world_of x) a = Chip.mem (chip_reset 0xEE) a) /\
  Chip.protect_bits (world_of x) = Chip.protect_bits (chip_reset 0xEE) /\
  Chip.wel (world_of x) = false /\ Chip.selected (world_of x) = false.
Proof.
  cbv zeta. split; [reflexivity|].
  apply (mram_write_effect 64 (chip_handlers 7 0x55) (mk_mram 100 200 7)
           (fun c => c) 0x7FFFE [0x11; 0x22] 2 (chip_reset 0xEE)).
  - lia.
  - apply (chip_faithful (mk_mram 100 200 7)).
  - lia.
  - lia.
  - rewrite max_address_value. lia.
  - reflexivity.
Defined.






(** ** The latch and the status register on the reference device *)

Lemma write_enable_device {W : Type} (h : handlers W) (m : mram)
      (abs : W -> Chip.state) (w : W) :
  faithful h m abs ->
  let x := run h (mram_write_enable (Some m)) w in
  result_of x = Some true ->
  abs (world_of x) = chip_transaction [MRAM_CMD_WREN] (abs w).
Proof.
  intros F. run_cases; intros E; try discriminate E.
  chip_steps F.
  apply clocked_out_exact in Hclk; [subst out | reflexivity].
  chip_chain.
Qed.

Lemma write_disable_device {W : Type} (h : handlers W) (m : mram)
      (abs : W -> Chip.state) (w : W) :
  faithful h m abs ->
  let x := run h (mram_write_disable (Some m)) w in
  result_of x = Some true ->
  abs (world_of x) = chip_transaction [MRAM_CMD_WRDI] (abs w).
Proof.
  intros F. run_cases; intros E; try discriminate E.
  chip_steps F.
  apply clocked_out_exact in Hclk; [subst out | reflexivity].
  chip_chain.
Qed.

(** A status-register read in which every call succeeds returns the
    device's status byte and leaves latch, protection bits and memory as
    they were. *)
Lemma read_status_device {W : Type} (h : handlers W) (m : mram)
      (abs : W -> Chip.state) (status : Z) (w : W) :
  faithful h m abs ->
  let x := run h (mram_read_status_register (Some m) (Some status)) w in
  all_ok (trace_of x) = true ->
  result_of x = Some (true, Some (Chip.status_byte (abs w))) /\
  Chip.wel (abs (world_of x)) = Chip.wel (abs w) /\
  Chip.protect_bits (abs (world_of x)) = Chip.protect_bits (abs w) /\
  Chip.mem (abs (world_of x)) = Chip.mem (abs w) /\
  Chip.selected (abs (world_of x)) = false.
Proof.
  intros F. run_cases; intros E; try discriminate E; chip_steps F;
    apply clocked_out_exact in Hclk; try reflexivity; subst out;
    apply clocked_out_exact in Hclk0; try reflexivity; subst out0;
    specialize (Hrx ltac:(discriminate)); clear Hrx0;
    rewrite Habs0, Hgpio in Hrx;
    destruct (abs w) as [s ph wl p mm] eqn:Ew; cbn in Hrx.
  - discriminate Hrx.
  - injection Hrx as -> _.
    rewrite Hgpio0, Habs, Habs0, Hgpio. cbn. repeat split.
Qed.

(** X12: on a faithful device whose stored protection bits do not occupy
    bit 1, [mram_is_write_enabled] reports the write-enable latch whenever
    none of its calls fails; hence it answers true after a successful
    [mram_write_enable] and false after a successful
    [mram_write_disable] or a successful [mram_write]. *)
Theorem write_enabled_reports_latch {W : Type} (B : Z) (h : handlers W) (m : mram)
        (abs : W -> Chip.state) (addr : Z) (data : list Z) (len : Z) (w : W) :
  32 <= B -> faithful h m abs ->
  Z.testbit (Chip.protect_bits (abs w)) 1 = false ->
  0 <= addr -> 1 <= len -> addr + len - 1 <= MRAM_MAX_ADDRESS ->
  let query w' := run h (mram_is_write_enabled (Some m)) w' in
  let after {A : Type} (p : prog A) := world_of (run h p w) in
  (all_ok (trace_of (query w)) = true ->
   result_of (query w) = Some (Chip.wel (abs w))) /\
  (result_of (run h (mram_write_enable (Some m)) w) = Some true ->
   all_ok (trace_of (query (after (mram_write_enable (Some m))))) = true ->
   result_of (query (after (mram_write_enable (Some m)))) = Some true) /\
  (result_of (run h (mram_write_disable (Some m)) w) = Some true ->
   all_ok (trace_of (query (after (mram_write_disable (Some m))))) = true ->
   result_of (query (after (mram_write_disable (Some m)))) = Some false) /\
  (result_of (run h (mram_write B (Some m) addr (Some data) len) w) = Some true ->
   all_ok (trace_of (query (after (mram_write B (Some m) addr (Some data) len))))
     = true ->
   result_of (query (after (mram_write B (Some m) addr (Some data) len)))
     = Some false).
Proof.
  intros HB F Hbit Ha Hl Hr. cbv zeta.
  assert (forall w', Z.testbit (Chip.protect_bits (abs w')) 1 = false ->
            all_ok (trace_of (run h (mram_is_write_enabled (Some m)) w')) = true ->
            result_of (run h (mram_is_write_enabled (Some m)) w')
              = Some (Chip.wel (abs w'))) as Hq.
  { intros w' Hb Hok.
    pose proof (read_status_device h m abs uninit_byte w' F) as Hrd.
    cbv zeta in Hrd. revert Hok Hrd.
    pose proof (to_bool_land_pow2 (Chip.status_byte (abs w')) 1 ltac:(lia)) as Hland.
    change (2 ^ 1) with 2 in Hland.
    assert (Z.testbit (Chip.status_byte (abs w')) 1 = Chip.wel (abs w')) as Hst.
    { unfold Chip.status_byte. rewrite Z.lor_spec, Hb.
      destruct (Chip.wel (abs w')); reflexivity. }
    run_cases; intros Hok Hrd; try discriminate Hok;
      destruct (Hrd eq_refl) as (E & _); injection E as E;
      rewrite E; cbn [status_value]; now rewrite Hland, Hst. }
  split; [apply Hq; assumption|].
  split; [|split].
  - intros He Hok.
    pose proof (write_enable_device h m abs w F He) as Hd.
    rewrite Hq; try assumption.
    + now rewrite Hd, chip_command_wren.
    + now rewrite Hd, chip_command_wren.
  - intros He Hok.
    pose proof (write_disable_device h m abs w F He) as Hd.
    rewrite Hq; try assumption.
    + now rewrite Hd, chip_command_wrdi.
    + now rewrite Hd, chip_command_wrdi.
  - intros He Hok.
    destruct (mram_write_device B h m abs addr data len w HB F Ha Hl Hr He)
      as (_ & _ & Hp & Hw & _).
    rewrite Hq; try assumption.
    + now rewrite Hw.
    + now rewrite Hp.
Qed.

Lemma write_enabled_reports_latch_witness :
  let h := chip_handlers 7 0x55 in
  let m := mk_mram 100 200 7 in
  let w1 := world_of (run h (mram_write 64 (Some m) 0x10000
                               (Some (repeat 0xAA 16)) 16) (chip_reset 0)) in
  result_of (run h (mram_is_write_enabled (Some m)) w1) = Some false.
Proof.
  cbv zeta.
  apply (proj2 (proj2 (proj2
           (write_enabled_reports_latch 64 (chip_handlers 7 0x55) (mk_mram 100 200 7)
              (fun c => c) 0x10000 (repeat 0xAA 16) 16 (chip_reset 0)
              ltac:(lia) (chip_faithful (mk_mram 100 200 7) 0x55) eq_refl
              ltac:(lia) ltac:(lia) ltac:(rewrite max_address_value; lia)))));
    reflexivity.
Defined.

Lemma write_status_device {W : Type} (h : handlers W) (m : mram)
      (abs : W -> Chip.state) (status : Z) (w : W) :
  faithful h m abs ->
  let x := run h (mram_write_status_register (Some m) status) w in
  result_of x = Some true ->
  Chip.wel (abs (world_of x)) = false /\
  Chip.protect_bits (abs (world_of x)) = Z.land status 0x8C /\
  Chip.mem (abs (world_of x)) = Chip.mem (abs w) /\
  Chip.selected (abs (world_of x)) = false.
Proof.
  intros F. run_cases; intros E; try discriminate E.
  chip_steps F.
  apply clocked_out_exact in Hclk; [subst out | reflexivity].
  apply clocked_out_exact in Hclk0; [subst out0 | reflexivity].
  apply clocked_out_exact in Hclk1; [subst out1 | reflexivity].
  apply clocked_out_exact in Hclk2; [subst out2 | reflexivity].
  repeat match goal with
         | H : abs _ = _ |- _ => rewrite H; clear H
         end.
  destruct (abs w) as [s ph wl p mm]. cbn. repeat split.
Qed.

(** X13: on a faithful device, a successful
    [mram_write_status_register] of [status] followed by a status-register
    read in which no call fails returns [status] reduced to the three
    protection bits 7, 3 and 2: the write-enable bit reads 0 whatever
    [status] asked for, because the write ends with a write-disable; the
    memory is not touched. *)
Theorem status_register_round_trip {W : Type} (h : handlers W) (m : mram)
        (abs : W -> Chip.state) (status old : Z) (w : W) :
  faithful h m abs ->
  let x := run h (mram_write_status_register (Some m) status) w in
  let y := run h (mram_read_status_register (Some m) (Some old)) (world_of x) in
  result_of x = Some true ->
  all_ok (trace_of y) = true ->
  result_of y = Some (true, Some (Z.land status 0x8C)) /\
  Z.testbit (Z.land status 0x8C) 1 = false /\
  Chip.mem (abs (world_of y)) = Chip.mem (abs w).
Proof.
  intros F x y Hx Hy. subst x y.
  destruct (write_status_device h m abs status w F Hx) as (Hw & Hp & Hm & _).
  destruct (read_status_device h m abs old _ F Hy) as (Hr & _ & _ & Hm' & _).
  rewrite Hr. unfold Chip.status_byte. rewrite Hw, Hp, Z.lor_0_r.
  split; [reflexivity|]. split.
  - rewrite Z.land_spec. change (Z.testbit 140 1) with false. apply andb_false_r.
  - congruence.
Qed.

Lemma status_register_round_trip_witness :
  let h := chip_handlers 7 0x55 in
  let m := mk_mram 100 200 7 in
  let x := run h (mram_write_status_register (Some m) 0x8E) (chip_reset 0) in
  result_of (run h (mram_read_status_register (Some m) (Some 0)) (world_of x))
    = Some (true, Some (Z.land 0x8E 0x8C)).
Proof.
  cbv zeta.
  apply (status_register_round_trip (chip_handlers 7 0x55) (mk_mram 100 200 7)
           (fun c => c) 0x8E 0 (chip_reset 0)
           (chip_faithful (mk_mram 100 200 7) 0x55) eq_refl eq_refl).
Defined.

(** ** A write whose data exchange fails *)

(** X14: when the data exchange of an accepted [mram_write] fails (after a
    successful write-enable transaction and chip-select assertion), the
    write returns false after one attempt to drive chip-select high, and
    no write-disable transaction is started: the run ends after its sixth
    call. *)
Theorem mram_write_failed_transfer {W : Type} (B : Z) (h : handlers W) (m : mram)
        (addr : Z) (data : list Z) (len : Z) (w : W) :
  32 <= B -> 0 <= addr -> 1 <= len -> addr + len - 1 <= MRAM_MAX_ADDRESS ->
  let x := run h (mram_write B (Some m) addr (Some data) len) w in
  all_ok (firstn 4 (trace_of x)) = true ->
  all_ok (firstn 5 (trace_of x)) = false ->
  result_of x = Some false /\
  calls (trace_of x) = firstn 6 (write_calls m addr data len).
Proof.
  intros HB Ha Hl Hr. cbv zeta.
  unfold mram_write. accept_range B addr len. cbv zeta.
  destruct (write_tx_buf B addr data len) as [tx|] eqn:Etx.
  - apply write_tx_buf_some in Etx;
      [| assumption | rewrite max_address_value in Hr; cbn; lia].
    destruct Etx as [-> Hdat].
    run_cases; intros H4 H5; try discriminate H4; try discriminate H5;
      split; reflexivity.
  - run_cases; intros H4 H5; try discriminate H4; try discriminate H5.
Qed.

Lemma mram_write_failed_transfer_witness :
  let x := run (scripted 0) (mram_write 64 (Some (mk_mram 1 2 5)) 16
                               (Some [1; 2]) 2)
               [true; true; true; true; false] in
  result_of x = Some false /\
  calls (trace_of x) = firstn 6 (write_calls (mk_mram 1 2 5) 16 [1; 2] 2).
Proof.
  cbv zeta.
  apply (mram_write_failed_transfer 64 (scripted 0) (mk_mram 1 2 5) 16 [1; 2] 2
           [true; true; true; true; false]
           ltac:(lia) ltac:(lia) ltac:(lia)
           ltac:(rewrite max_address_value; lia));
    reflexivity.
Defined.
